(** * Multi-head attention of the Transformer (src/main.py)

    A shallow embedding of [SelfAttention] and [Transformer.make_trg_mask]
    together with the tensor primitives of the array runtime they call
    (reshape, nn.Linear, einsum, masked_fill, softmax, tril, expand).

    Tensors are contiguous row-major arrays: a shape and a flat list of
    elements.  The element type is abstract (a [Scalar] with, for softmax
    and the scaling, a [Floating] structure on top), so that the
    structural theorems hold for every arithmetic, and is instantiated
    with [Z] to run the linear part and with the real numbers for the
    analytic statements about softmax. *)

From Stdlib Require Import String Ascii.
From Stdlib Require Import Reals Lra.
From Stdlib Require Import List ZArith Lia Bool Arith.
Import ListNotations.

Local Open Scope nat_scope.

(** ** Exceptions *)

Inductive exn : Type :=
| AssertionError (msg : string)
| ZeroDivisionError
| IndexError
| ValueError
| RuntimeError.

Definition result (T : Type) : Type := (exn + T)%type.

Definition ret {T : Type} (x : T) : result T := inr x.

Definition raise {T : Type} (e : exn) : result T := inl e.

Definition bind {T U : Type} (m : result T) (k : T -> result U) : result U :=
  match m with
  | inl e => inl e
  | inr x => k x
  end.

Notation "x <- m ;; k" := (bind m (fun x => k))
  (at level 61, m at next level, right associativity).

Definition is_ok {T : Type} (m : result T) : bool :=
  match m with
  | inl _ => false
  | inr _ => true
  end.

(** ** Element types *)

(** What the linear part of the computation needs of a dtype. *)
Class Scalar (A : Type) : Type := {
  szero : A;
  sone : A;
  sadd : A -> A -> A;
  smul : A -> A -> A;
  sconst : Z -> A;
  seqb : A -> A -> bool
}.

(** What scaling and softmax need on top of it. *)
Class Floating (A : Type) {SA : Scalar A} : Type := {
  ssub : A -> A -> A;
  sdiv : A -> A -> A;
  sexp : A -> A;
  ssqrt : A -> A;
  smax : A -> A -> A
}.

#[export] Instance Scalar_Z : Scalar Z := {
  szero := 0%Z;
  sone := 1%Z;
  sadd := Z.add;
  smul := Z.mul;
  sconst := fun z => z;
  seqb := Z.eqb
}.

Definition Reqb (x y : R) : bool := if Req_dec_T x y then true else false.

#[export] Instance Scalar_R : Scalar R := {
  szero := 0%R;
  sone := 1%R;
  sadd := Rplus;
  smul := Rmult;
  sconst := IZR;
  seqb := Reqb
}.

#[export] Instance Floating_R : Floating R := {
  ssub := Rminus;
  sdiv := Rdiv;
  sexp := exp;
  ssqrt := sqrt;
  smax := Rmax
}.

(** ** Tensors *)

Record Tensor (A : Type) : Type := mkTensor {
  shape : list nat;
  data : list A
}.

Arguments mkTensor {A} shape data.
Arguments shape {A} t.
Arguments data {A} t.

Definition numel (s : list nat) : nat := fold_right Nat.mul 1 s.

(** Row-major offset of a multi-index. *)
Fixpoint ravel (s idx : list nat) : nat :=
  match s, idx with
  | _ :: s', i :: idx' => i * numel s' + ravel s' idx'
  | _, _ => 0
  end.

(** All multi-indices of a shape, in row-major order. *)
Fixpoint indices (s : list nat) : list (list nat) :=
  match s with
  | [] => [[]]
  | d :: s' => flat_map (fun i => map (cons i) (indices s')) (seq 0 d)
  end.

Definition in_bounds (s idx : list nat) : Prop := Forall2 lt idx s.

Definition wf {A : Type} (t : Tensor A) : Prop :=
  length (data t) = numel (shape t).

Definition get_or {A : Type} (d : A) (t : Tensor A) (idx : list nat) : A :=
  nth (ravel (shape t) idx) (data t) d.

Definition build {A : Type} (s : list nat) (f : list nat -> A) : Tensor A :=
  mkTensor s (map f (indices s)).

(** [a] and [b] are the sizes of one dimension in two operands. *)
Definition bdim (a b : nat) : result nat :=
  if a =? b then ret a
  else if a =? 1 then ret b
  else if b =? 1 then ret a
  else raise RuntimeError.

(** Broadcasting aligns shapes from the last dimension. *)
Fixpoint bcast_rev (a b : list nat) : result (list nat) :=
  match a, b with
  | [], _ => ret b
  | _, [] => ret a
  | x :: a', y :: b' =>
      d <- bdim x y ;;
      r <- bcast_rev a' b' ;;
      ret (d :: r)
  end.

Definition broadcast_shapes (a b : list nat) : result (list nat) :=
  r <- bcast_rev (rev a) (rev b) ;; ret (rev r).

Definition bcoord (di : nat * nat) : nat :=
  if fst di =? 1 then 0 else snd di.

(** The index into an operand of shape [s] for the index [idx] of the
    broadcast result: the trailing [length s] components, with 0 along
    the dimensions of size 1. *)
Definition bindex (s idx : list nat) : list nat :=
  rev (map bcoord (combine (rev s) (rev idx))).

Section TensorOps.
Context {A : Type} `{Scalar A}.

Definition get (t : Tensor A) (idx : list nat) : A := get_or szero t idx.

Definition getb (t : Tensor bool) (idx : list nat) : bool := get_or false t idx.

Definition sum_list (xs : list A) : A := fold_right sadd szero xs.

(** [Tensor.reshape(dims...)]: sizes are Python ints; one of them may be
    -1, which is then inferred. *)
Definition reshape (t : Tensor A) (dims : list Z) : result (Tensor A) :=
  if existsb (fun d => (d <? -1)%Z) dims then raise RuntimeError
  else
    let known := numel (map Z.to_nat (filter (fun d => negb (d =? -1)%Z) dims)) in
    match count_occ Z.eq_dec dims (-1)%Z with
    | 0 =>
        if known =? numel (shape t)
        then ret (mkTensor (map Z.to_nat dims) (data t))
        else raise RuntimeError
    | 1 =>
        if (known =? 0) || negb (numel (shape t) mod known =? 0)
        then raise RuntimeError
        else ret (mkTensor
                    (map (fun d => if (d =? -1)%Z
                                   then numel (shape t) / known
                                   else Z.to_nat d) dims)
                    (data t))
    | _ => raise RuntimeError
    end.

(** [t.shape[i]] *)
Definition shape_at (t : Tensor A) (i : nat) : result nat :=
  match nth_error (shape t) i with
  | Some d => ret d
  | None => raise IndexError
  end.

(** *** nn.Linear *)

Record Linear : Type := mkLinear {
  weight : Tensor A;            (* shape (out_features, in_features) *)
  bias : option (Tensor A)      (* shape (out_features) *)
}.

(** The parameter provider: the initial value of every entry. *)
Record Init : Type := mkInit {
  weight_init : list nat -> A;
  bias_init : list nat -> A
}.

(** [nn.Linear(in_features, out_features, bias)] *)
Definition nn_Linear (in_features out_features : Z) (with_bias : bool)
           (p : Init) : result Linear :=
  if (in_features <? 0)%Z || (out_features <? 0)%Z then raise RuntimeError
  else
    let i := Z.to_nat in_features in
    let o := Z.to_nat out_features in
    ret (mkLinear (build [o; i] (weight_init p))
                  (if with_bias then Some (build [o] (bias_init p)) else None)).

(** Calling the layer: y[..., o] = sum_i x[..., i] * W[o, i] (+ b[o]). *)
Definition linear (l : Linear) (x : Tensor A) : result (Tensor A) :=
  match shape (weight l), rev (shape x) with
  | [o; i], last_dim :: lead_rev =>
      if last_dim =? i then
        ret (build (rev lead_rev ++ [o])
               (fun idx =>
                  let lead := removelast idx in
                  let j := last idx 0 in
                  let acc :=
                    sum_list (map (fun d => smul (get x (lead ++ [d]))
                                                 (get (weight l) [j; d]))
                                  (seq 0 i)) in
                  match bias l with
                  | Some b => sadd acc (get b [j])
                  | None => acc
                  end))
      else raise RuntimeError
  | _, _ => raise RuntimeError
  end.

(** *** torch.einsum, for two operands without repeated subscripts *)

Definition sizes : Type := list (ascii * nat).

Fixpoint lookup (c : ascii) (e : sizes) : option nat :=
  match e with
  | [] => None
  | (c', v) :: e' => if Ascii.eqb c c' then Some v else lookup c e'
  end.

Definition lookup0 (c : ascii) (e : sizes) : nat :=
  match lookup c e with
  | Some v => v
  | None => 0
  end.

Fixpoint update (c : ascii) (v : nat) (e : sizes) : sizes :=
  match e with
  | [] => [(c, v)]
  | (c', v') :: e' =>
      if Ascii.eqb c c' then (c', v) :: e' else (c', v') :: update c v e'
  end.

(** Record the sizes of one operand, broadcasting against the sizes
    the earlier operands gave to the same subscripts. *)
Fixpoint bind_dims (ls : list ascii) (ds : list nat) (e : sizes)
  : result sizes :=
  match ls, ds with
  | [], [] => ret e
  | c :: ls', d :: ds' =>
      match lookup c e with
      | None => bind_dims ls' ds' (update c d e)
      | Some d0 => d' <- bdim d0 d ;; bind_dims ls' ds' (update c d' e)
      end
  | _, _ => raise RuntimeError
  end.

Definition mem (c : ascii) (ls : list ascii) : bool :=
  existsb (Ascii.eqb c) ls.

Fixpoint dedup (ls : list ascii) : list ascii :=
  match ls with
  | [] => []
  | c :: ls' => if mem c ls' then dedup ls' else c :: dedup ls'
  end.

(** Every assignment of the subscripts [cs] within their sizes. *)
Fixpoint assignments (cs : list ascii) (sz : sizes) : list sizes :=
  match cs with
  | [] => [[]]
  | c :: cs' =>
      flat_map (fun v => map (cons (c, v)) (assignments cs' sz))
               (seq 0 (lookup0 c sz))
  end.

Definition operand_index (ls : list ascii) (ds : list nat) (e : sizes)
  : list nat :=
  map (fun cd => bcoord (snd cd, lookup0 (fst cd) e)) (combine ls ds).

Fixpoint split_on (sep : ascii) (s : list ascii) : list (list ascii) :=
  match s with
  | [] => [[]]
  | c :: s' =>
      if Ascii.eqb c sep then [] :: split_on sep s'
      else match split_on sep s' with
           | w :: ws => (c :: w) :: ws
           | [] => [[c]]
           end
  end.

(** "ab,cd->ef" gives ([ab; cd], ef). *)
Definition parse_equation (eq : string) : option (list (list ascii) * list ascii) :=
  match split_on "-"%char (list_ascii_of_string eq) with
  | [lhs; (">"%char :: out)] => Some (split_on ","%char lhs, out)
  | _ => None
  end.

Definition einsum (eq : string) (ops : list (Tensor A)) : result (Tensor A) :=
  match parse_equation eq, ops with
  | Some ([la; lb], lo), [a; b] =>
      sz <- bind_dims la (shape a) [] ;;
      sz <- bind_dims lb (shape b) sz ;;
      if forallb (fun c => mem c (la ++ lb)) lo then
        let contracted :=
          filter (fun c => negb (mem c lo)) (dedup (la ++ lb)) in
        ret (build (map (fun c => lookup0 c sz) lo)
               (fun idx =>
                  sum_list
                    (map (fun e =>
                            let env := e ++ combine lo idx in
                            smul (get a (operand_index la (shape a) env))
                                 (get b (operand_index lb (shape b) env)))
                         (assignments contracted sz))))
      else raise RuntimeError
  | _, _ => raise RuntimeError
  end.

(** *** Masking *)

(** [t == c] *)
Definition tensor_eq (t : Tensor A) (c : A) : Tensor bool :=
  build (shape t) (fun idx => seqb (get t idx) c).

(** [t.masked_fill(mask, value)]: out of place, [t] and [mask] are
    broadcast against each other. *)
Definition masked_fill (t : Tensor A) (mask : Tensor bool) (value : A)
  : result (Tensor A) :=
  s <- broadcast_shapes (shape t) (shape mask) ;;
  ret (build s (fun idx =>
                  if getb mask (bindex (shape mask) idx)
                  then value
                  else get t (bindex (shape t) idx))).

(** [torch.ones(s)] *)
Definition ones (s : list nat) : Tensor A := build s (fun _ => sone).

(** [torch.tril(t)]: the entries above the diagonal of the last two
    dimensions become zero. *)
Definition tril (t : Tensor A) : result (Tensor A) :=
  match rev (shape t) with
  | _ :: _ :: _ =>
      ret (build (shape t)
             (fun idx =>
                let r := nth (length idx - 2) idx 0 in
                let c := nth (length idx - 1) idx 0 in
                if c <=? r then get t idx else szero))
  | _ => raise RuntimeError
  end.

(** [t.expand(s...)]: dimensions of size 1 are repeated, new leading
    dimensions are added. *)
Definition expand (t : Tensor A) (s : list nat) : result (Tensor A) :=
  if (length (shape t) <=? length s)
     && forallb (fun ds => (fst ds =? snd ds) || (fst ds =? 1))
                (combine (rev (shape t)) (rev s))
  then ret (build s (fun idx => get t (bindex (shape t) idx)))
  else raise RuntimeError.

End TensorOps.

Arguments Linear A : clear implicits.
Arguments Init A : clear implicits.

(** ** class SelfAttention *)

Section SelfAttentionScores.
Context {A : Type} {SA : Scalar A}.

Record SelfAttention : Type := mkSelfAttention {
  embed_size : Z;
  heads : Z;
  head_dim : Z;
  values : Linear A;
  keys : Linear A;
  queries : Linear A;
  fc_out : Linear A
}.

(** The initial parameters of the four layers. *)
Record Params : Type := mkParams {
  values_init : Init A;
  keys_init : Init A;
  queries_init : Init A;
  fc_out_init : Init A
}.

(** Python's [a // b] on ints. *)
Definition floordiv (a b : Z) : result Z :=
  if (b =? 0)%Z then raise ZeroDivisionError else ret (a / b)%Z.

(** [SelfAttention.__init__] (lines 5-22) *)
Definition SelfAttention_init (embed_size heads : Z) (p : Params)
  : result SelfAttention :=
  head_dim <- floordiv embed_size heads ;;
  if negb (head_dim * heads =? embed_size)%Z
  then raise (AssertionError "Embed size needs to be div by heads")
  else
    values <- nn_Linear head_dim head_dim false (values_init p) ;;
    keys <- nn_Linear head_dim head_dim false (keys_init p) ;;
    queries <- nn_Linear head_dim head_dim false (queries_init p) ;;
    fc_out <- nn_Linear (heads * head_dim)%Z embed_size true (fc_out_init p) ;;
    ret (mkSelfAttention embed_size heads head_dim values keys queries fc_out).

(** The local variables of [forward] once the scores are masked
    (line 51). *)
Record Scores : Type := mkScores {
  s_N : nat;
  s_query_len : nat;
  s_values : Tensor A;      (* values = self.values(values) *)
  s_keys : Tensor A;        (* keys = self.keys(keys) *)
  s_queries : Tensor A;     (* queries = query.reshape(...) *)
  s_query : Tensor A;       (* query = self.queries(queries) *)
  s_energy_raw : Tensor A;  (* energy as the einsum returns it *)
  s_energy : Tensor A       (* energy after the masking step *)
}.

(** [SelfAttention.forward], lines 27-51. *)
Definition attention_scores (self : SelfAttention)
           (values_in keys_in query_in : Tensor A) (mask : option (Tensor A))
  : result Scores :=
  N <- shape_at query_in 0 ;;
  value_len <- shape_at values_in 1 ;;
  key_len <- shape_at keys_in 1 ;;
  query_len <- shape_at query_in 1 ;;
  values_r <- reshape values_in
                [Z.of_nat N; Z.of_nat value_len; heads self; head_dim self] ;;
  keys_r <- reshape keys_in
              [Z.of_nat N; Z.of_nat key_len; heads self; head_dim self] ;;
  queries_r <- reshape query_in
                 [Z.of_nat N; Z.of_nat query_len; heads self; head_dim self] ;;
  values_p <- linear (values self) values_r ;;
  keys_p <- linear (keys self) keys_r ;;
  query_p <- linear (queries self) queries_r ;;
  energy_raw <- einsum "nqhd,nkhd->nhqk" [queries_r; keys_p] ;;
  energy <- match mask with
            | Some m =>
                masked_fill energy_raw (tensor_eq m szero)
                            (sconst (- 10 ^ 20)%Z)
            | None => ret energy_raw
            end ;;
  ret (mkScores N query_len values_p keys_p queries_r query_p
                energy_raw energy).

(** [Transformer.make_trg_mask] (lines 270-278); the device transfer
    is the identity on values. *)
Definition make_trg_mask (trg : Tensor Z) : result (Tensor A) :=
  match shape trg with
  | [N; trg_len] =>
      lower <- tril (ones [trg_len; trg_len]) ;;
      expand lower [N; 1; trg_len; trg_len]
  | _ => raise ValueError
  end.

End SelfAttentionScores.

Arguments SelfAttention A : clear implicits.
Arguments Params A : clear implicits.
Arguments Scores A : clear implicits.

Section SelfAttentionForward.
Context {A : Type} {SA : Scalar A} {FA : Floating A}.

Definition max_list (xs : list A) : A :=
  match xs with
  | [] => szero
  | x :: xs' => fold_right smax x xs'
  end.

(** softmax of one row, the maximum subtracted first. *)
Definition softmax_list (xs : list A) : list A :=
  let m := max_list xs in
  let es := map (fun x => sexp (ssub x m)) xs in
  let s := sum_list es in
  map (fun e => sdiv e s) es.

Definition set_nth (idx : list nat) (d j : nat) : list nat :=
  firstn d idx ++ j :: skipn (S d) idx.

(** [torch.softmax(t, dim)] *)
Definition softmax (t : Tensor A) (dim : nat) : result (Tensor A) :=
  match nth_error (shape t) dim with
  | None => raise IndexError
  | Some len =>
      ret (build (shape t)
             (fun idx =>
                nth (nth dim idx 0)
                    (softmax_list
                       (map (fun j => get t (set_nth idx dim j)) (seq 0 len)))
                    szero))
  end.

(** [t / c] for a Python number [c] *)
Definition div_scalar (t : Tensor A) (c : A) : Tensor A :=
  build (shape t) (fun idx => sdiv (get t idx) c).

(** The local variables of [forward] at its end. *)
Record Trace : Type := mkTrace {
  t_scores : Scores A;
  t_scaled : Tensor A;      (* energy / (self.embed_size ** (1/2)) *)
  t_attention : Tensor A;   (* attention *)
  t_heads : Tensor A;       (* the einsum of attention and values *)
  t_out : Tensor A          (* out, as returned *)
}.

(** [SelfAttention.forward] (lines 24-67) *)
Definition forward_trace (self : SelfAttention A)
           (values_in keys_in query_in : Tensor A) (mask : option (Tensor A))
  : result Trace :=
  s <- attention_scores self values_in keys_in query_in mask ;;
  let scaled := div_scalar (s_energy s) (ssqrt (sconst (embed_size self))) in
  attention <- softmax scaled 3 ;;
  heads_out <- einsum "nhql,nlhd->nqhd" [attention; s_values s] ;;
  out_flat <- reshape heads_out
                [Z.of_nat (s_N s); Z.of_nat (s_query_len s);
                 (heads self * head_dim self)%Z] ;;
  out <- linear (fc_out self) out_flat ;;
  ret (mkTrace s scaled attention heads_out out).

Definition forward (self : SelfAttention A)
           (values_in keys_in query_in : Tensor A) (mask : option (Tensor A))
  : result (Tensor A) :=
  t <- forward_trace self values_in keys_in query_in mask ;; ret (t_out t).

(** Target self-attention as [Transformer.forward] and
    [DecoderBlock.forward] call it: [self.attention(x, x, x, trg_mask)]
    with [trg_mask = self.make_trg_mask(trg)]. *)
Definition target_self_attention (self : SelfAttention A)
           (x : Tensor A) (trg : Tensor Z) : result Trace :=
  trg_mask <- make_trg_mask trg ;;
  forward_trace self x x x (Some trg_mask).

End SelfAttentionForward.

Arguments Trace A : clear implicits.

(** * Well-formed calls *)

Section WellFormed.
Context {A : Type} {SA : Scalar A}.

(** A module as [__init__] leaves it, for embedding size [E], [H]
    heads and head dimension [D]. *)
Definition configured (self : SelfAttention A) (E H D : nat) : Prop :=
  embed_size self = Z.of_nat E /\
  heads self = Z.of_nat H /\
  head_dim self = Z.of_nat D /\
  E = H * D /\
  shape (weight (values self)) = [D; D] /\
  shape (weight (keys self)) = [D; D] /\
  shape (weight (queries self)) = [D; D] /\
  shape (weight (fc_out self)) = [E; H * D].

(** A mask that broadcasts to the shape [s] of the scores. *)
Definition mask_ok (mask : option (Tensor A)) (s : list nat) : Prop :=
  match mask with
  | None => True
  | Some m => broadcast_shapes s (shape m) = inr s
  end.

(** The score at [idx] after the masking step, from the raw score. *)
Definition masked_score (mask : option (Tensor A)) (raw : Tensor A)
           (idx : list nat) : A :=
  match mask with
  | None => get raw idx
  | Some m =>
      if seqb (get m (bindex (shape m) idx)) szero
      then sconst (- 10 ^ 20)%Z
      else get raw idx
  end.

(** What [attention_scores] returns on a well-formed call. *)
Definition scores_spec (query_in : Tensor A) (mask : option (Tensor A))
           (N H D V K Q : nat) (s : Scores A) : Prop :=
  s_N s = N /\ s_query_len s = Q /\
  shape (s_values s) = [N; V; H; D] /\
  shape (s_keys s) = [N; K; H; D] /\
  s_queries s = mkTensor [N; Q; H; D] (data query_in) /\
  shape (s_energy_raw s) = [N; H; Q; K] /\
  shape (s_energy s) = [N; H; Q; K] /\
  (forall n h q k, n < N -> h < H -> q < Q -> k < K ->
     get (s_energy_raw s) [n; h; q; k] =
     sum_list (map (fun d => smul (get (s_queries s) [n; q; h; d])
                                  (get (s_keys s) [n; k; h; d]))
                   (seq 0 D))) /\
  (forall n h q k, n < N -> h < H -> q < Q -> k < K ->
     get (s_energy s) [n; h; q; k] =
     masked_score mask (s_energy_raw s) [n; h; q; k]).

End WellFormed.


Section WellFormedTrace.
Context {A : Type} {SA : Scalar A} {FA : Floating A}.

(** What [forward_trace] returns on a well-formed call. *)
Definition trace_spec (self : SelfAttention A) (query_in : Tensor A)
           (mask : option (Tensor A)) (E N H D K Q : nat) (t : Trace A)
  : Prop :=
  scores_spec query_in mask N H D K K Q (t_scores t) /\
  shape (t_scaled t) = [N; H; Q; K] /\
  shape (t_attention t) = [N; H; Q; K] /\
  shape (t_heads t) = [N; Q; H; D] /\
  shape (t_out t) = [N; Q; E] /\
  (forall n h q k, n < N -> h < H -> q < Q -> k < K ->
     get (t_scaled t) [n; h; q; k] =
     sdiv (get (s_energy (t_scores t)) [n; h; q; k])
          (ssqrt (sconst (embed_size self)))) /\
  (forall n h q k, n < N -> h < H -> q < Q -> k < K ->
     get (t_attention t) [n; h; q; k] =
     nth k (softmax_list (map (fun j => get (t_scaled t) [n; h; q; j])
                              (seq 0 K)))
         szero) /\
  (forall n q h d, n < N -> q < Q -> h < H -> d < D ->
     get (t_heads t) [n; q; h; d] =
     sum_list (map (fun l => smul (get (t_attention t) [n; h; q; l])
                                  (get (s_values (t_scores t)) [n; l; h; d]))
                   (seq 0 K))).

End WellFormedTrace.


(** * Concrete inputs *)

(** Weights [c] on the diagonal and 0 elsewhere, bias 0. *)
Definition diag_init {A : Type} {SA : Scalar A} (c : A) : Init A :=
  mkInit (fun idx => match idx with
                     | [o; i] => if o =? i then c else szero
                     | _ => szero
                     end)
         (fun _ => szero).

(** Identity weights everywhere, except the query projection, which
    doubles its input. *)
Definition params_Z : Params Z :=
  mkParams (diag_init 1%Z) (diag_init 1%Z) (diag_init 2%Z) (diag_init 1%Z).

(** One sequence of two positions, embedding size 4. *)
Definition x_Z : Tensor Z := mkTensor [1; 2; 4] [1; 2; 3; 4; 5; 6; 7; 8]%Z.

(** One target sentence of three tokens, the last one padding. *)
Definition trg_Z : Tensor Z := mkTensor [1; 3] [1; 7; 0]%Z.


(** The same over the real numbers. *)
Definition params_R : Params R :=
  mkParams (diag_init 1%R) (diag_init 1%R) (diag_init 2%R) (diag_init 1%R).

(** [SelfAttention(4, 2)] with the parameters [params_R]. *)
Definition attn_R : SelfAttention R :=
  mkSelfAttention 4 2 2
    (mkLinear (build [2; 2] (weight_init (values_init params_R))) None)
    (mkLinear (build [2; 2] (weight_init (keys_init params_R))) None)
    (mkLinear (build [2; 2] (weight_init (queries_init params_R))) None)
    (mkLinear (build [4; 4] (weight_init (fc_out_init params_R)))
              (Some (build [4] (bias_init (fc_out_init params_R))))).

Definition x_R : Tensor R := mkTensor [1; 2; 4] [1; 2; 3; 4; 5; 6; 7; 8]%R.

(** A value sequence of length 1 and a key sequence of length 3. *)
Definition v1_R : Tensor R := mkTensor [1; 1; 4] [1; 0; 0; 1]%R.

Definition k3_R : Tensor R :=
  mkTensor [1; 3; 4] [1; 0; 0; 1; 0; 1; 1; 0; 1; 1; 1; 1]%R.


(** The causal mask for two positions, as [make_trg_mask] builds it. *)
Definition causal2_R : Tensor R := mkTensor [1; 1; 2; 2] [1; 0; 1; 1]%R.

(** A value sequence of length 2 against the three keys of [k3_R]. *)
Definition v2_R : Tensor R := mkTensor [1; 2; 4] [1; 0; 0; 1; 0; 1; 1; 0]%R.


(** The module [self] with another query projection. *)
Definition with_queries {A : Type} (self : SelfAttention A) (lq : Linear A)
  : SelfAttention A :=
  mkSelfAttention (embed_size self) (heads self) (head_dim self)
                  (values self) (keys self) lq (fc_out self).

(** The parameters [p] with another initial query projection. *)
Definition with_queries_init {A : Type} (p : Params A) (qi : Init A)
  : Params A :=
  mkParams (values_init p) (keys_init p) qi (fc_out_init p).


(** [attn_R] with the query projection multiplying by 5 instead of 2. *)
Definition attn5_R : SelfAttention R :=
  with_queries attn_R
    (mkLinear (build [2; 2] (weight_init (diag_init 5%R))) None).

(** [SelfAttention(4, 2)] with the parameters [params_Z]. *)
Definition attn_Z : SelfAttention Z :=
  mkSelfAttention 4 2 2
    (mkLinear (build [2; 2] (weight_init (values_init params_Z))) None)
    (mkLinear (build [2; 2] (weight_init (keys_init params_Z))) None)
    (mkLinear (build [2; 2] (weight_init (queries_init params_Z))) None)
    (mkLinear (build [4; 4] (weight_init (fc_out_init params_Z)))
              (Some (build [4] (bias_init (fc_out_init params_Z))))).


(** The exponentials of a row of real scores, the maximum subtracted. *)
Definition exps (xs : list R) : list R :=
  map (fun x => exp (x - max_list xs)%R) xs.


(** [SelfAttention(1, 1)] whose key projection multiplies by -1, the
    other three layers being the identity. *)
Definition params1_R : Params R :=
  mkParams (diag_init 1%R) (diag_init (-1)%R) (diag_init 1%R) (diag_init 1%R).

Definition attn1_R : SelfAttention R :=
  mkSelfAttention 1 1 1
    (mkLinear (build [1; 1] (weight_init (values_init params1_R))) None)
    (mkLinear (build [1; 1] (weight_init (keys_init params1_R))) None)
    (mkLinear (build [1; 1] (weight_init (queries_init params1_R))) None)
    (mkLinear (build [1; 1] (weight_init (fc_out_init params1_R)))
              (Some (build [1] (bias_init (fc_out_init params1_R))))).

(** Two positions with the activation 2e10. *)
Definition xbig_R : Tensor R :=
  mkTensor [1; 2; 1] [20000000000; 20000000000]%R.

(** One target sentence of two tokens. *)
Definition trg2_Z : Tensor Z := mkTensor [1; 2] [1; 7]%Z.

(** One query 2e10 against the keys 2e10 and 0, with the values 1 and
    3, and a mask that blocks the second key. *)
Definition qbig_R : Tensor R := mkTensor [1; 1; 1] [20000000000]%R.

Definition kbig_R : Tensor R := mkTensor [1; 2; 1] [20000000000; 0]%R.

Definition v13_R : Tensor R := mkTensor [1; 2; 1] [1; 3]%R.

Definition only_first_R : Tensor R := mkTensor [1; 1; 1; 2] [1; 0]%R.


(** A mask that blocks each of three keys, for every head and query. *)
Definition block_all3_R : Tensor R := mkTensor [1; 1; 1; 3] [0; 0; 0]%R.


(** * The layers around attention *)

From Stdlib Require QArith.

(** ** Random draws and the monad of the stochastic layers *)

(** The generator: the stream of keep/drop decisions still to come. *)
Definition Rng : Type := nat -> bool.

Definition M (T : Type) : Type := Rng -> result (T * Rng).

Definition mret {T : Type} (x : T) : M T := fun g => inr (x, g).

Definition mbind {T U : Type} (m : M T) (k : T -> M U) : M U :=
  fun g =>
    match m g with
    | inl e => inl e
    | inr (x, g') => k x g'
    end.

Definition lift {T : Type} (r : result T) : M T :=
  fun g =>
    match r with
    | inl e => inl e
    | inr x => inr (x, g)
    end.

Notation "x <~ m ;; k" := (mbind m (fun x => k))
  (at level 61, m at next level, right associativity).

Section Layers.
Context {A : Type} {SA : Scalar A} {FA : Floating A}.

(** A Python number given as a rational. *)
Definition of_Q (q : QArith_base.Q) : A := sdiv (sconst (QArith_base.Qnum q)) (sconst (Zpos (QArith_base.Qden q))).

(** [a + b], with broadcasting *)
Definition add_tensors (a b : Tensor A) : result (Tensor A) :=
  s <- broadcast_shapes (shape a) (shape b) ;;
  ret (build s (fun idx => sadd (get a (bindex (shape a) idx))
                                (get b (bindex (shape b) idx)))).

(** [nn.ReLU()] *)
Definition relu (x : Tensor A) : Tensor A :=
  build (shape x) (fun idx => smax (get x idx) szero).

(** ** nn.LayerNorm over the last dimension *)

Record LayerNorm : Type := mkLayerNorm {
  ln_weight : Tensor A;
  ln_bias : Tensor A;
  ln_eps : A
}.

(** [nn.LayerNorm(normalized_shape)] for an int: weight 1, bias 0,
    eps 1e-5. *)
Definition nn_LayerNorm (normalized_shape : Z) : result LayerNorm :=
  if (normalized_shape <? 0)%Z then raise RuntimeError
  else
    let e := Z.to_nat normalized_shape in
    ret (mkLayerNorm (ones [e]) (build [e] (fun _ => szero))
                     (of_Q (QArith_base.Qmake 1 100000))).

(** The entries of the row of [x] that holds [idx]. *)
Definition row_of (x : Tensor A) (idx : list nat) (e : nat) : list A :=
  map (fun j => get x (removelast idx ++ [j])) (seq 0 e).

Definition mean (xs : list A) : A :=
  sdiv (sum_list xs) (sconst (Z.of_nat (length xs))).

(** Calling the layer: each row is centred, divided by the square root
    of its (biased) variance plus eps, then scaled and shifted. *)
Definition layer_norm (l : LayerNorm) (x : Tensor A) : result (Tensor A) :=
  match shape (ln_weight l), rev (shape x) with
  | [e], last_dim :: _ =>
      if last_dim =? e then
        ret (build (shape x)
               (fun idx =>
                  let row := row_of x idx e in
                  let mu := mean row in
                  let var := mean (map (fun v => smul (ssub v mu) (ssub v mu))
                                       row) in
                  let j := last idx 0 in
                  sadd (smul (sdiv (ssub (get x idx) mu)
                                   (ssqrt (sadd var (ln_eps l))))
                             (get (ln_weight l) [j]))
                       (get (ln_bias l) [j])))
      else raise RuntimeError
  | _, _ => raise RuntimeError
  end.

(** ** nn.Dropout *)

Record Dropout : Type := mkDropout {
  p : QArith_base.Q;
  training : bool
}.

(** [nn.Dropout(p)]; a module starts in training mode. *)
Definition nn_Dropout (p : QArith_base.Q) : result Dropout :=
  if QArith_base.Qle_bool (QArith_base.Qmake 0 1) p
     && QArith_base.Qle_bool p (QArith_base.Qmake 1 1)
  then ret (mkDropout p true)
  else raise ValueError.

(** Calling the layer.  Outside training, for p = 0 and on an empty
    tensor the input is returned; for p = 1 it is multiplied by 0;
    otherwise each entry is multiplied by a draw divided by 1 - p. *)
Definition call_dropout (d : Dropout) (x : Tensor A) : M (Tensor A) :=
  fun g =>
    if negb (training d) || QArith_base.Qeq_bool (p d) (QArith_base.Qmake 0 1)
       || (numel (shape x) =? 0)
    then inr (x, g)
    else if QArith_base.Qeq_bool (p d) (QArith_base.Qmake 1 1)
    then inr (build (shape x) (fun idx => smul (get x idx) szero), g)
    else
      inr (build (shape x)
             (fun idx =>
                smul (get x idx)
                     (sdiv (if g (ravel (shape x) idx) then sone else szero)
                           (ssub sone (of_Q (p d))))),
           fun i => g (numel (shape x) + i)).

(** ** nn.Embedding *)

Record Embedding : Type := mkEmbedding {
  emb_weight : Tensor A      (* shape (num_embeddings, embedding_dim) *)
}.

(** [nn.Embedding(num_embeddings, embedding_dim)] *)
Definition nn_Embedding (num_embeddings embedding_dim : Z) (init : list nat -> A)
  : result Embedding :=
  if (num_embeddings <? 0)%Z || (embedding_dim <? 0)%Z then raise RuntimeError
  else ret (mkEmbedding
              (build [Z.to_nat num_embeddings; Z.to_nat embedding_dim] init)).

(** Calling the layer on a tensor of indices: every index has to be a
    row of the table. *)
Definition embedding (e : Embedding) (x : Tensor Z) : result (Tensor A) :=
  match shape (emb_weight e) with
  | [num; dim] =>
      if forallb (fun ix => (0 <=? get x ix)%Z && (get x ix <? Z.of_nat num)%Z)
                 (indices (shape x))
      then ret (build (shape x ++ [dim])
                  (fun ix => get (emb_weight e)
                                 [Z.to_nat (get x (removelast ix)); last ix 0]))
      else raise IndexError
  | _ => raise RuntimeError
  end.

(** [torch.arange(0, n)] *)
Definition arange (n : nat) : Tensor Z :=
  build [n] (fun ix => Z.of_nat (hd 0 ix)).

(** [t.unsqueeze(d)] *)
Definition unsqueeze {T : Type} (t : Tensor T) (d : nat) : result (Tensor T) :=
  if d <=? length (shape t)
  then ret (mkTensor (firstn d (shape t) ++ 1 :: skipn d (shape t)) (data t))
  else raise IndexError.

(** [t != c] on a tensor of ints *)
Definition tensor_ne (t : Tensor Z) (c : Z) : Tensor bool :=
  build (shape t) (fun ix => negb (get t ix =? c)%Z).

(** A mask of booleans as the comparison [mask == 0] reads it: True is
    1 and False is 0. *)
Definition as_scalars (m : Tensor bool) : Tensor A :=
  build (shape m) (fun ix => if getb m ix then sone else szero).

End Layers.

Arguments LayerNorm A : clear implicits.
Arguments Embedding A : clear implicits.


(** ** class TransformerBlock *)

Module TransformerBlock.
Section Defs.
Context {A : Type} {SA : Scalar A} {FA : Floating A}.

Record t : Type := mk {
  attention : SelfAttention A;
  norm1 : LayerNorm A;
  norm2 : LayerNorm A;
  feed_forward : Linear A * Linear A;   (* Linear, ReLU, Linear *)
  dropout : Dropout
}.

(** The initial parameters of one block. *)
Record params : Type := mk_params {
  attention_init : Params A;
  ff1_init : Init A;
  ff2_init : Init A
}.

(** [TransformerBlock.__init__] (lines 70-83) *)
Definition init (embed_size heads : Z) (dropout : QArith_base.Q)
           (forward_expansion : Z) (ps : params) : result t :=
  attention <- SelfAttention_init embed_size heads (attention_init ps) ;;
  norm1 <- nn_LayerNorm embed_size ;;
  norm2 <- nn_LayerNorm embed_size ;;
  ff1 <- nn_Linear embed_size (forward_expansion * embed_size)%Z true
                   (ff1_init ps) ;;
  ff2 <- nn_Linear (forward_expansion * embed_size)%Z embed_size true
                   (ff2_init ps) ;;
  dropout <- nn_Dropout dropout ;;
  ret (mk attention norm1 norm2 (ff1, ff2) dropout).

(** [self.feed_forward(x)] *)
Definition call_feed_forward (ff : Linear A * Linear A) (x : Tensor A)
  : result (Tensor A) :=
  h <- linear (fst ff) x ;;
  linear (snd ff) (relu h).

(** [TransformerBlock.forward] (lines 85-97) *)
Definition forward (self : t) (value key query : Tensor A)
           (mask : option (Tensor A)) : M (Tensor A) :=
  attention_out <~ lift (forward (attention self) value key query mask) ;;
  sum1 <~ lift (add_tensors attention_out query) ;;
  x <~ lift (layer_norm (norm1 self) sum1) ;;
  x <~ call_dropout (dropout self) x ;;
  forward_out <~ lift (call_feed_forward (feed_forward self) x) ;;
  sum2 <~ lift (add_tensors forward_out x) ;;
  normed <~ lift (layer_norm (norm2 self) sum2) ;;
  call_dropout (dropout self) normed.

End Defs.
Arguments t A : clear implicits.
Arguments params A : clear implicits.
End TransformerBlock.


(** [[f(i) for i in range(n)]], evaluated in order from [i]. *)
Fixpoint comprehension {T : Type} (f : nat -> result T) (n i : nat)
  : result (list T) :=
  match n with
  | 0 => ret []
  | S n' => x <- f i ;; xs <- comprehension f n' (S i) ;; ret (x :: xs)
  end.

(** ** class Encoder *)

Module Encoder.
Section Defs.
Context {A : Type} {SA : Scalar A} {FA : Floating A}.

Record t : Type := mk {
  embed_size : Z;
  word_embedding : Embedding A;
  position_embedding : Embedding A;
  layers : list (TransformerBlock.t A);
  dropout : Dropout
}.

Record params : Type := mk_params {
  word_init : list nat -> A;
  position_init : list nat -> A;
  layer_init : nat -> TransformerBlock.params A
}.

(** [Encoder.__init__] (lines 100-130) *)
Definition init (src_vocab_size embed_size num_layers heads forward_expansion : Z)
           (dropout : QArith_base.Q) (max_length : Z) (ps : params)
  : result t :=
  word_embedding <- nn_Embedding src_vocab_size embed_size (word_init ps) ;;
  position_embedding <- nn_Embedding max_length embed_size (position_init ps) ;;
  layers <- comprehension
              (fun i => TransformerBlock.init embed_size heads dropout
                                              forward_expansion (layer_init ps i))
              (Z.to_nat num_layers) 0 ;;
  dropout <- nn_Dropout dropout ;;
  ret (mk embed_size word_embedding position_embedding layers dropout).

(** The loop over [self.layers] (lines 144-145). *)
Fixpoint run_layers (layers : list (TransformerBlock.t A)) (out : Tensor A)
         (mask : option (Tensor A)) : M (Tensor A) :=
  match layers with
  | [] => mret out
  | layer :: rest =>
      out' <~ TransformerBlock.forward layer out out out mask ;;
      run_layers rest out' mask
  end.

(** [Encoder.forward] (lines 132-147) *)
Definition forward (self : t) (x : Tensor Z) (mask : option (Tensor A))
  : M (Tensor A) :=
  N <~ lift (shape_at x 0) ;;
  seq_length <~ lift (shape_at x 1) ;;
  positions <~ lift (expand (arange seq_length) [N; seq_length]) ;;
  words <~ lift (embedding (word_embedding self) x) ;;
  places <~ lift (embedding (position_embedding self) positions) ;;
  summed <~ lift (add_tensors words places) ;;
  out <~ call_dropout (dropout self) summed ;;
  run_layers (layers self) out mask.

End Defs.
Arguments t A : clear implicits.
Arguments params A : clear implicits.
End Encoder.

(** ** class DecoderBlock *)

Module DecoderBlock.
Section Defs.
Context {A : Type} {SA : Scalar A} {FA : Floating A}.

Record t : Type := mk {
  attention : SelfAttention A;
  norm : LayerNorm A;
  transformer_block : TransformerBlock.t A;
  dropout : Dropout
}.

Record params : Type := mk_params {
  attention_init : Params A;
  block_init : TransformerBlock.params A
}.

(** [DecoderBlock.__init__] (lines 150-157) *)
Definition init (embed_size heads forward_expansion : Z)
           (dropout : QArith_base.Q) (ps : params) : result t :=
  attention <- SelfAttention_init embed_size heads (attention_init ps) ;;
  norm <- nn_LayerNorm embed_size ;;
  transformer_block <- TransformerBlock.init embed_size heads dropout
                                             forward_expansion (block_init ps) ;;
  dropout <- nn_Dropout dropout ;;
  ret (mk attention norm transformer_block dropout).

(** [DecoderBlock.forward] (lines 159-163) *)
Definition forward (self : t) (x value key : Tensor A)
           (src_mask trg_mask : option (Tensor A)) : M (Tensor A) :=
  attention_out <~ lift (forward (attention self) x x x trg_mask) ;;
  summed <~ lift (add_tensors attention_out x) ;;
  normed <~ lift (layer_norm (norm self) summed) ;;
  query <~ call_dropout (dropout self) normed ;;
  TransformerBlock.forward (transformer_block self) value key query src_mask.

End Defs.
Arguments t A : clear implicits.
Arguments params A : clear implicits.
End DecoderBlock.

(** ** class Decoder *)

Module Decoder.
Section Defs.
Context {A : Type} {SA : Scalar A} {FA : Floating A}.

Record t : Type := mk {
  word_embedding : Embedding A;
  position_embedding : Embedding A;
  layers : list (DecoderBlock.t A);
  fc_out : Linear A;
  dropout : Dropout
}.

Record params : Type := mk_params {
  word_init : list nat -> A;
  position_init : list nat -> A;
  layer_init : nat -> DecoderBlock.params A;
  fc_out_init : Init A
}.

(** [Decoder.__init__] (lines 166-194) *)
Definition init (trg_vocab_size embed_size num_layers heads forward_expansion : Z)
           (dropout : QArith_base.Q) (max_length : Z) (ps : params)
  : result t :=
  word_embedding <- nn_Embedding trg_vocab_size embed_size (word_init ps) ;;
  position_embedding <- nn_Embedding max_length embed_size (position_init ps) ;;
  layers <- comprehension
              (fun i => DecoderBlock.init embed_size heads forward_expansion
                                          dropout (layer_init ps i))
              (Z.to_nat num_layers) 0 ;;
  fc_out <- nn_Linear embed_size trg_vocab_size true (fc_out_init ps) ;;
  dropout <- nn_Dropout dropout ;;
  ret (mk word_embedding position_embedding layers fc_out dropout).

(** The loop over [self.layers] (lines 208-209). *)
Fixpoint run_layers (layers : list (DecoderBlock.t A)) (x enc_out : Tensor A)
         (src_mask trg_mask : option (Tensor A)) : M (Tensor A) :=
  match layers with
  | [] => mret x
  | layer :: rest =>
      x' <~ DecoderBlock.forward layer x enc_out enc_out src_mask trg_mask ;;
      run_layers rest x' enc_out src_mask trg_mask
  end.

(** [Decoder.forward] (lines 196-214) *)
Definition forward (self : t) (x : Tensor Z) (enc_out : Tensor A)
           (src_mask trg_mask : option (Tensor A)) : M (Tensor A) :=
  N <~ lift (shape_at x 0) ;;
  seq_length <~ lift (shape_at x 1) ;;
  positions <~ lift (expand (arange seq_length) [N; seq_length]) ;;
  words <~ lift (embedding (word_embedding self) x) ;;
  places <~ lift (embedding (position_embedding self) positions) ;;
  summed <~ lift (add_tensors words places) ;;
  x' <~ call_dropout (dropout self) summed ;;
  x'' <~ run_layers (layers self) x' enc_out src_mask trg_mask ;;
  lift (linear (fc_out self) x'').

End Defs.
Arguments t A : clear implicits.
Arguments params A : clear implicits.
End Decoder.

(** ** class Transformer *)

Module Transformer.
Section Defs.
Context {A : Type} {SA : Scalar A} {FA : Floating A}.

Record t : Type := mk {
  encoder : Encoder.t A;
  decoder : Decoder.t A;
  src_pad_idx : Z;
  trg_pad_idx : Z
}.

Record params : Type := mk_params {
  encoder_init : Encoder.params A;
  decoder_init : Decoder.params A
}.

(** [Transformer.__init__] (lines 217-260) *)
Definition init (src_vocab_size trg_vocab_size src_pad_idx trg_pad_idx
                 embed_size num_layers forward_expansion heads : Z)
           (dropout : QArith_base.Q) (max_length : Z) (ps : params)
  : result t :=
  encoder <- Encoder.init src_vocab_size embed_size num_layers heads
                          forward_expansion dropout max_length
                          (encoder_init ps) ;;
  decoder <- Decoder.init trg_vocab_size embed_size num_layers heads
                          forward_expansion dropout max_length
                          (decoder_init ps) ;;
  ret (mk encoder decoder src_pad_idx trg_pad_idx).

(** [Transformer.make_src_mask] (lines 262-268) *)
Definition make_src_mask (self : t) (src : Tensor Z) : result (Tensor bool) :=
  m <- unsqueeze (tensor_ne src (src_pad_idx self)) 1 ;;
  unsqueeze m 2.

(** [Transformer.forward] (lines 280-294); the masks reach
    [masked_fill(mask == 0, ...)], where True counts as 1. *)
Definition forward (self : t) (src trg : Tensor Z) : M (Tensor A) :=
  src_mask <~ lift (make_src_mask self src) ;;
  trg_mask <~ lift (make_trg_mask trg) ;;
  enc_src <~ Encoder.forward (encoder self) src (Some (as_scalars src_mask)) ;;
  Decoder.forward (decoder self) trg enc_src (Some (as_scalars src_mask))
                  (Some trg_mask).

End Defs.
Arguments t A : clear implicits.
Arguments params A : clear implicits.
End Transformer.


(** * Well-formed layers *)

Section StackWellFormed.
Context {A : Type} {SA : Scalar A} {FA : Floating A}.

(** A block as [TransformerBlock.__init__] leaves it, with feed-forward
    width [F]. *)
Definition block_configured (b : TransformerBlock.t A) (E H D F : nat) : Prop :=
  configured (TransformerBlock.attention b) E H D /\
  shape (ln_weight (TransformerBlock.norm1 b)) = [E] /\
  shape (ln_weight (TransformerBlock.norm2 b)) = [E] /\
  shape (weight (fst (TransformerBlock.feed_forward b))) = [F; E] /\
  shape (weight (snd (TransformerBlock.feed_forward b))) = [E; F].

Definition decoder_block_configured (b : DecoderBlock.t A) (E H D F : nat)
  : Prop :=
  configured (DecoderBlock.attention b) E H D /\
  shape (ln_weight (DecoderBlock.norm b)) = [E] /\
  block_configured (DecoderBlock.transformer_block b) E H D F.

(** Every token is an index below [V]. *)
Definition tokens_in_range (x : Tensor Z) (V : nat) : Prop :=
  forall ix, in_bounds (shape x) ix -> (0 <= get x ix < Z.of_nat V)%Z.

End StackWellFormed.


Section StackWellFormed2.
Context {A : Type} {SA : Scalar A} {FA : Floating A}.

(** An encoder as [Encoder.__init__] leaves it: vocabulary [V],
    [P] positions. *)
Definition encoder_configured (e : Encoder.t A) (V P E H D F : nat) : Prop :=
  shape (emb_weight (Encoder.word_embedding e)) = [V; E] /\
  shape (emb_weight (Encoder.position_embedding e)) = [P; E] /\
  Forall (fun b => block_configured b E H D F) (Encoder.layers e).

(** A decoder as [Decoder.__init__] leaves it. *)
Definition decoder_configured (d : Decoder.t A) (V P E H D F : nat) : Prop :=
  shape (emb_weight (Decoder.word_embedding d)) = [V; E] /\
  shape (emb_weight (Decoder.position_embedding d)) = [P; E] /\
  Forall (fun b => decoder_block_configured b E H D F) (Decoder.layers d) /\
  shape (weight (Decoder.fc_out d)) = [V; E].

End StackWellFormed2.


Section StackWellFormed3.
Context {A : Type} {SA : Scalar A} {FA : Floating A}.

(** A model as [Transformer.__init__] leaves it: source and target
    vocabularies [Vs] and [Vt], [P] positions. *)
Definition transformer_configured (tr : Transformer.t A)
           (Vs Vt P E H D F : nat) : Prop :=
  encoder_configured (Transformer.encoder tr) Vs P E H D F /\
  decoder_configured (Transformer.decoder tr) Vt P E H D F.

End StackWellFormed3.


(** * A small model *)

Definition tiny_block_params : TransformerBlock.params R :=
  TransformerBlock.mk_params params_R (diag_init 1%R) (diag_init 1%R).

Definition tiny_params : Transformer.params R :=
  Transformer.mk_params
    (Encoder.mk_params (fun _ => 1%R) (fun _ => 0%R)
                       (fun _ => tiny_block_params))
    (Decoder.mk_params (fun _ => 1%R) (fun _ => 0%R)
                       (fun _ => DecoderBlock.mk_params params_R
                                                        tiny_block_params)
                       (diag_init 1%R)).

Definition no_dropout : QArith_base.Q := QArith_base.Qmake 0 1.

(** [Transformer(10, 10, 0, 0, embed_size=4, num_layers=2,
    forward_expansion=2, heads=2, dropout=0, max_length=5)] *)
Definition tiny_R : result (Transformer.t R) :=
  Transformer.init 10 10 0 0 4 2 2 2 no_dropout 5 tiny_params.

(** A source sentence of four tokens, the last one padding, and a
    target sentence of three tokens. *)
Definition src_tokens : Tensor Z := mkTensor [1; 4] [1; 5; 6; 0]%Z.

Definition trg_tokens : Tensor Z := mkTensor [1; 3] [1; 7; 4]%Z.

(** The generator that keeps every entry. *)
Definition keep_all : Rng := fun _ => true.


(** Keys and values for the four source tokens, embedding size 4. *)
Definition kv4_R : Tensor R :=
  mkTensor [1; 4; 4] [1; 0; 0; 1; 0; 1; 1; 0; 1; 1; 1; 1; 2; 0; 0; 2]%R.

(** Six tokens, one more than the positions of the small model, and a
    token that is not in its vocabulary. *)
Definition long_tokens : Tensor Z := mkTensor [1; 6] [1; 2; 3; 4; 5; 6]%Z.

Definition bad_tokens : Tensor Z := mkTensor [1; 2] [1; 10]%Z.


(** * Computations that do not use the generator *)

(** [m] gives one outcome whatever the generator is, and leaves the
    generator as it found it. *)
Definition deterministic {T : Type} (m : M T) : Prop :=
  exists r : result T, forall g, m g = lift r g.

Definition zero_rate (d : Dropout) : Prop :=
  QArith_base.Qeq_bool (p d) (QArith_base.Qmake 0 1) = true.

Definition block_quiet {A : Type} (b : TransformerBlock.t A) : Prop :=
  zero_rate (TransformerBlock.dropout b).

Definition decoder_block_quiet {A : Type} (b : DecoderBlock.t A) : Prop :=
  zero_rate (DecoderBlock.dropout b) /\
  block_quiet (DecoderBlock.transformer_block b).


(** * Properties of the tensor primitives *)

Section IndexLemmas.

Lemma length_indices (s : list nat) : length (indices s) = numel s.
Proof.
  induction s as [|d s IH]; simpl; auto.
  generalize 0 as off.
  induction d as [|d IHd]; intros off; simpl; auto.
  rewrite length_app, length_map, IH, IHd. reflexivity.
Qed.

Lemma in_bounds_length (s idx : list nat) :
  in_bounds s idx -> length idx = length s.
Proof. intros Hb. eapply Forall2_length; eauto. Qed.

Lemma ravel_lt (s idx : list nat) : in_bounds s idx -> ravel s idx < numel s.
Proof.
  intros Hb. induction Hb as [|i d idx s Hid Hb IH]; simpl.
  - lia.
  - nia.
Qed.

(** Blocks of equal length: position [i * m + r] of a concatenation of
    blocks is position [r] of block [i]. *)
Lemma nth_error_blocks {T : Type} (g : nat -> list T) (m : nat) :
  (forall i, length (g i) = m) ->
  forall (d off i r : nat), i < d -> r < m ->
    nth_error (flat_map g (seq off d)) (i * m + r) = nth_error (g (off + i)) r.
Proof.
  intros Hlen d. induction d as [|d IH]; intros off i r Hi Hr.
  - lia.
  - simpl. destruct i as [|i].
    + simpl. rewrite nth_error_app1 by (rewrite Hlen; lia).
      rewrite Nat.add_0_r. reflexivity.
    + rewrite nth_error_app2 by (rewrite Hlen; simpl; lia).
      rewrite Hlen.
      replace (S i * m + r - m) with (i * m + r) by (simpl; lia).
      rewrite IH by lia. f_equal. f_equal. lia.
Qed.

Lemma nth_error_indices (s idx : list nat) :
  in_bounds s idx -> nth_error (indices s) (ravel s idx) = Some idx.
Proof.
  intros Hb. induction Hb as [|i d idx s Hid Hb IH]; simpl.
  - reflexivity.
  - rewrite (nth_error_blocks (fun i => map (cons i) (indices s)) (numel s)).
    + simpl. rewrite nth_error_map, IH. reflexivity.
    + intros j. rewrite length_map. apply length_indices.
    + exact Hid.
    + apply ravel_lt. exact Hb.
Qed.

Lemma in_indices (s idx : list nat) : In idx (indices s) -> in_bounds s idx.
Proof.
  revert idx. induction s as [|d s IH]; intros idx Hin; simpl in Hin.
  - destruct Hin as [<-|[]]. constructor.
  - apply in_flat_map in Hin. destruct Hin as [i [Hi Hin]].
    apply in_map_iff in Hin. destruct Hin as [idx' [<- Hin]].
    apply in_seq in Hi. constructor; [lia | apply IH; exact Hin].
Qed.

Lemma get_or_build {T : Type} (d : T) (s : list nat) (f : list nat -> T)
      (idx : list nat) :
  in_bounds s idx -> get_or d (build s f) idx = f idx.
Proof.
  intros Hb. unfold get_or, build; simpl.
  apply nth_error_nth. rewrite nth_error_map, nth_error_indices by exact Hb.
  reflexivity.
Qed.

Lemma build_ext {T : Type} (s : list nat) (f g : list nat -> T) :
  (forall idx, in_bounds s idx -> f idx = g idx) -> build s f = build s g.
Proof.
  intros Hfg. unfold build. f_equal. apply map_ext_in.
  intros idx Hin. apply Hfg, in_indices, Hin.
Qed.

Lemma wf_build {T : Type} (s : list nat) (f : list nat -> T) : wf (build s f).
Proof. unfold wf, build; simpl. rewrite length_map. apply length_indices. Qed.

End IndexLemmas.

Section BroadcastLemmas.

Lemma Forall2_rev {T U : Type} (P : T -> U -> Prop) (l : list T) (l' : list U) :
  Forall2 P l l' -> Forall2 P (rev l) (rev l').
Proof.
  induction 1 as [|x y l l' Hxy Hl IH]; simpl.
  - constructor.
  - apply Forall2_app; [exact IH | constructor; [exact Hxy | constructor]].
Qed.

Lemma bcoord_lt (d i : nat) : i < d -> bcoord (d, i) = i.
Proof.
  intros Hi. unfold bcoord; simpl.
  destruct (Nat.eqb_spec d 1); lia.
Qed.

Lemma bdim_refl (a : nat) : bdim a a = inr a.
Proof. unfold bdim. rewrite Nat.eqb_refl. reflexivity. Qed.

Lemma bdim_inv (a b r : nat) :
  bdim a b = inr r -> (a = b /\ r = a) \/ (a = 1 /\ r = b) \/ (b = 1 /\ r = a).
Proof.
  unfold bdim, ret, raise.
  destruct (Nat.eqb_spec a b); [intros [= <-]; auto|].
  destruct (Nat.eqb_spec a 1); [intros [= <-]; auto|].
  destruct (Nat.eqb_spec b 1); [intros [= <-]; auto|].
  discriminate.
Qed.

Lemma bdim_mismatch (a b : nat) :
  a <> b -> a <> 1 -> b <> 1 -> bdim a b = inl RuntimeError.
Proof.
  intros Hab Ha Hb. unfold bdim.
  destruct (Nat.eqb_spec a b); [contradiction|].
  destruct (Nat.eqb_spec a 1); [contradiction|].
  destruct (Nat.eqb_spec b 1); [contradiction|].
  reflexivity.
Qed.

Lemma bindex_self (s idx : list nat) : in_bounds s idx -> bindex s idx = idx.
Proof.
  intros Hb. unfold bindex.
  apply Forall2_rev in Hb.
  rewrite <- (rev_involutive idx) at 2. f_equal.
  induction Hb as [|i d ri rs Hid Hb IH]; simpl.
  - reflexivity.
  - rewrite bcoord_lt by exact Hid. f_equal. exact IH.
Qed.

Lemma bcast_rev_in_bounds (rs rm ri : list nat) :
  bcast_rev rs rm = inr rs -> Forall2 lt ri rs ->
  Forall2 lt (map bcoord (combine rm ri)) rm.
Proof.
  revert rs ri. induction rm as [|y rm IH]; intros rs ri Hbc Hb.
  - constructor.
  - destruct Hb as [|i x ri rs Hix Hb].
    + simpl in Hbc. discriminate.
    + simpl in Hbc. unfold bind in Hbc.
      destruct (bdim x y) as [e|d] eqn:Hd; [discriminate|].
      destruct (bcast_rev rs rm) as [e|r] eqn:Hr; [discriminate|].
      injection Hbc as -> ->.
      simpl. constructor.
      * unfold bcoord; simpl. destruct (Nat.eqb_spec y 1); [lia|].
        apply bdim_inv in Hd. lia.
      * eapply IH; eauto.
Qed.

(** A mask whose shape broadcasts to the shape [s] of the scores is
    read within its bounds. *)
Lemma bindex_in_bounds (s sm idx : list nat) :
  broadcast_shapes s sm = inr s -> in_bounds s idx ->
  in_bounds sm (bindex sm idx).
Proof.
  intros Hbc Hb. unfold broadcast_shapes, bind in Hbc.
  destruct (bcast_rev (rev s) (rev sm)) as [e|r] eqn:Hr; [discriminate|].
  injection Hbc as Hrs.
  assert (r = rev s) as -> by (rewrite <- Hrs; symmetry; apply rev_involutive).
  unfold in_bounds, bindex.
  rewrite <- (rev_involutive sm) at 2.
  apply Forall2_rev.
  eapply bcast_rev_in_bounds; [exact Hr|].
  apply Forall2_rev. exact Hb.
Qed.

Lemma broadcast_shapes_refl (s : list nat) : broadcast_shapes s s = inr s.
Proof.
  unfold broadcast_shapes.
  assert (Hr : forall l, bcast_rev l l = inr l).
  { induction l as [|x l IH]; simpl; auto.
    rewrite bdim_refl. simpl. rewrite IH. reflexivity. }
  rewrite Hr. simpl. rewrite rev_involutive. reflexivity.
Qed.

End BroadcastLemmas.

Section OpLemmas.
Context {A : Type} {SA : Scalar A}.

Lemma get_build (s : list nat) (f : list nat -> A) (idx : list nat) :
  in_bounds s idx -> get (build s f) idx = f idx.
Proof. apply get_or_build. Qed.

Lemma getb_build (s : list nat) (f : list nat -> bool) (idx : list nat) :
  in_bounds s idx -> getb (build s f) idx = f idx.
Proof. apply get_or_build. Qed.

Lemma in_bounds4 (a b c d i j k l : nat) :
  i < a -> j < b -> k < c -> l < d -> in_bounds [a; b; c; d] [i; j; k; l].
Proof. intros; repeat constructor; assumption. Qed.

Lemma in_bounds4_inv (a b c d : nat) (idx : list nat) :
  in_bounds [a; b; c; d] idx ->
  exists i j k l, idx = [i; j; k; l] /\ i < a /\ j < b /\ k < c /\ l < d.
Proof.
  intros Hb.
  inversion Hb as [|i ? t1 ? Hi Hb1]; subst.
  inversion Hb1 as [|j ? t2 ? Hj Hb2]; subst.
  inversion Hb2 as [|k ? t3 ? Hk Hb3]; subst.
  inversion Hb3 as [|l ? t4 ? Hl Hb4]; subst.
  inversion Hb4; subst.
  exists i, j, k, l. auto.
Qed.

(** *** reshape *)

Lemma reshape_nonneg (t : Tensor A) (dims : list Z) :
  Forall (fun d => 0 <= d)%Z dims ->
  reshape t dims =
  if numel (map Z.to_nat dims) =? numel (shape t)
  then inr (mkTensor (map Z.to_nat dims) (data t))
  else inl RuntimeError.
Proof.
  intros Hd. unfold reshape.
  assert (H1 : existsb (fun d => (d <? -1)%Z) dims = false).
  { induction Hd as [|d dims Hd0 Hd IH]; simpl; auto.
    rewrite IH, orb_false_r. apply Z.ltb_ge. lia. }
  assert (H2 : filter (fun d => negb (d =? -1)%Z) dims = dims).
  { clear - Hd. induction Hd as [|d dims Hd0 Hd IH]; [reflexivity|].
    cbn [filter]. destruct (Z.eqb_spec d (-1)); [lia|].
    cbn [negb]. rewrite IH. reflexivity. }
  assert (H3 : count_occ Z.eq_dec dims (-1)%Z = 0).
  { apply count_occ_not_In. intros Hin.
    rewrite Forall_forall in Hd. apply Hd in Hin. lia. }
  rewrite H1, H2, H3. reflexivity.
Qed.

Lemma reshape_inv (t t' : Tensor A) (dims : list Z) :
  reshape t dims = inr t' ->
  data t' = data t /\
  exists v, shape t' = map (fun d => if (d =? -1)%Z then v else Z.to_nat d) dims.
Proof.
  unfold reshape, ret, raise.
  destruct (existsb _ dims); [discriminate|].
  destruct (count_occ Z.eq_dec dims (-1)%Z) as [|[|c]] eqn:Hc.
  - destruct (_ =? _); [|discriminate].
    intros [= <-]. simpl. split; [reflexivity|].
    exists 0. apply map_ext_in. intros d Hin.
    destruct (Z.eqb_spec d (-1)) as [->|]; [|reflexivity].
    apply (count_occ_not_In Z.eq_dec) in Hc. contradiction.
  - destruct (_ || _); [discriminate|].
    intros [= <-]. simpl. split; [reflexivity|]. eexists. reflexivity.
  - discriminate.
Qed.

(** The [reshape(N, len, self.heads, self.head_dim)] of [forward]:
    whatever the configuration, the first two sizes are kept. *)
Lemma reshape_split_inv (t t' : Tensor A) (n l : nat) (h d : Z) :
  reshape t [Z.of_nat n; Z.of_nat l; h; d] = inr t' ->
  exists h' d', shape t' = [n; l; h'; d'].
Proof.
  intros Hr. apply reshape_inv in Hr. destruct Hr as [_ [v Hs]].
  simpl in Hs.
  destruct (Z.eqb_spec (Z.of_nat n) (-1)); [lia|].
  destruct (Z.eqb_spec (Z.of_nat l) (-1)); [lia|].
  rewrite !Nat2Z.id in Hs. eauto.
Qed.

(** *** nn.Linear *)

Lemma linear_inv (l : Linear A) (x y : Tensor A) :
  linear l x = inr y ->
  exists o i lead,
    shape (weight l) = [o; i] /\ shape x = lead ++ [i] /\ shape y = lead ++ [o].
Proof.
  unfold linear, ret, raise.
  destruct (shape (weight l)) as [|o [|i [|? ?]]]; try discriminate.
  destruct (rev (shape x)) as [|last_dim lead_rev] eqn:Hx; [discriminate|].
  destruct (Nat.eqb_spec last_dim i) as [->|]; [|discriminate].
  intros [= <-]. exists o, i, (rev lead_rev). repeat split.
  rewrite <- (rev_involutive (shape x)), Hx. reflexivity.
Qed.

Lemma linear_ok (l : Linear A) (x : Tensor A) (o i : nat) (lead : list nat) :
  shape (weight l) = [o; i] -> shape x = lead ++ [i] ->
  exists y, linear l x = inr y /\ shape y = lead ++ [o].
Proof.
  intros Hw Hx. unfold linear. rewrite Hw, Hx, rev_app_distr. simpl.
  rewrite Nat.eqb_refl, rev_involutive. eexists. split; reflexivity.
Qed.

(** The success of a layer call depends on the shape of the weights
    only. *)
Lemma linear_is_ok (l l' : Linear A) (x : Tensor A) :
  shape (weight l) = shape (weight l') ->
  is_ok (linear l x) = is_ok (linear l' x).
Proof.
  intros Hs. unfold linear. rewrite Hs.
  destruct (shape (weight l')) as [|o [|i [|? ?]]]; try reflexivity.
  destruct (rev (shape x)) as [|last_dim lead_rev]; [reflexivity|].
  destruct (last_dim =? i); reflexivity.
Qed.

End OpLemmas.

Section EinsumLemmas.
Context {A : Type} {SA : Scalar A}.

Lemma parse_scores :
  parse_equation "nqhd,nkhd->nhqk" =
  Some ([["n"; "q"; "h"; "d"]; ["n"; "k"; "h"; "d"]], ["n"; "h"; "q"; "k"])%char.
Proof. reflexivity. Qed.

Lemma parse_heads :
  parse_equation "nhql,nlhd->nqhd" =
  Some ([["n"; "h"; "q"; "l"]; ["n"; "l"; "h"; "d"]], ["n"; "q"; "h"; "d"])%char.
Proof. reflexivity. Qed.

Lemma map_assign1 {T : Type} (F : sizes -> T) (c : ascii) (l : list nat) :
  map F (flat_map (fun v => [[(c, v)]]) l) =
  map (fun v => F [(c, v)]) l.
Proof.
  induction l as [|v l IH]; simpl in *; [reflexivity|]. f_equal. exact IH.
Qed.

Ltac einsum_step :=
  cbn [bind_dims lookup update Ascii.eqb Bool.eqb bind ret raise].

Ltac einsum_step_in H :=
  cbn [bind_dims lookup update Ascii.eqb Bool.eqb bind ret raise] in H.

Ltac einsum_finish_in H :=
  cbn [app forallb mem existsb Ascii.eqb Bool.eqb orb andb dedup filter negb
       map lookup0 lookup assignments] in H.

Ltac einsum_finish :=
  cbn [app forallb mem existsb Ascii.eqb Bool.eqb orb andb dedup filter negb
       map lookup0 lookup assignments].

(** The scores: both operands of shape (n, len, h, d). *)
Lemma einsum_scores_ok (a b : Tensor A) (n q k h d : nat) :
  shape a = [n; q; h; d] -> shape b = [n; k; h; d] ->
  exists r,
    einsum "nqhd,nkhd->nhqk" [a; b] = inr r /\
    shape r = [n; h; q; k] /\
    forall i j x y, i < n -> j < h -> x < q -> y < k ->
      get r [i; j; x; y] =
      sum_list (map (fun c => smul (get a [i; x; j; c]) (get b [i; y; j; c]))
                    (seq 0 d)).
Proof.
  intros Ha Hb. unfold einsum. rewrite parse_scores, Ha, Hb.
  einsum_step. unfold bdim. rewrite !Nat.eqb_refl.
  einsum_step. einsum_finish.
  eexists. split; [reflexivity|]. split; [reflexivity|].
  intros i j x y Hi Hj Hx Hy.
  rewrite get_build by (apply in_bounds4; assumption).
  rewrite map_assign1. f_equal. apply map_ext_in. intros c Hc.
  apply in_seq in Hc.
  unfold operand_index.
  cbn [combine map app fst snd lookup0 lookup Ascii.eqb Bool.eqb].
  rewrite !bcoord_lt by lia. reflexivity.
Qed.

(** The weighted sum: attention (n, h, q, l) against values (n, l, h, d). *)
Lemma einsum_heads_ok (a b : Tensor A) (n q l h d : nat) :
  shape a = [n; h; q; l] -> shape b = [n; l; h; d] ->
  exists r,
    einsum "nhql,nlhd->nqhd" [a; b] = inr r /\
    shape r = [n; q; h; d] /\
    forall i x j c, i < n -> x < q -> j < h -> c < d ->
      get r [i; x; j; c] =
      sum_list (map (fun y => smul (get a [i; j; x; y]) (get b [i; y; j; c]))
                    (seq 0 l)).
Proof.
  intros Ha Hb. unfold einsum. rewrite parse_heads, Ha, Hb.
  einsum_step. unfold bdim. rewrite !Nat.eqb_refl.
  einsum_step. einsum_finish.
  eexists. split; [reflexivity|]. split; [reflexivity|].
  intros i x j c Hi Hx Hj Hc.
  rewrite get_build by (apply in_bounds4; assumption).
  rewrite map_assign1. f_equal. apply map_ext_in. intros y Hy.
  apply in_seq in Hy.
  unfold operand_index.
  cbn [combine map app fst snd lookup0 lookup Ascii.eqb Bool.eqb].
  rewrite !bcoord_lt by lia. reflexivity.
Qed.

Ltac split_shape t H :=
  let E := fresh "Hs" in
  destruct (shape t) as [|? [|? [|? [|? [|? ?]]]]] eqn:E;
  einsum_step_in H; try discriminate H.

Ltac split_bdim H :=
  match type of H with
  | context [bdim ?x ?y] =>
      let E := fresh "Hd" in
      destruct (bdim x y) eqn:E; einsum_step_in H; try discriminate H
  end.

Lemma einsum_scores_inv (a b r : Tensor A) :
  einsum "nqhd,nkhd->nhqk" [a; b] = inr r ->
  exists n1 q h1 d1 n2 k h2 d2 n h,
    shape a = [n1; q; h1; d1] /\ shape b = [n2; k; h2; d2] /\
    shape r = [n; h; q; k].
Proof.
  intros He. unfold einsum in He. rewrite parse_scores in He.
  split_shape a He. split_shape b He.
  all: repeat split_bdim He.
  einsum_finish_in He. injection He as <-.
  repeat eexists.
Qed.

Lemma einsum_heads_inv (a b r : Tensor A) :
  einsum "nhql,nlhd->nqhd" [a; b] = inr r ->
  exists n1 h1 q l1 n2 l2 h2 d n h l,
    shape a = [n1; h1; q; l1] /\ shape b = [n2; l2; h2; d] /\
    bdim l1 l2 = inr l /\ shape r = [n; q; h; d].
Proof.
  intros He. unfold einsum in He. rewrite parse_heads in He.
  split_shape a He. split_shape b He.
  all: repeat split_bdim He.
  einsum_finish_in He. injection He as <-.
  repeat eexists. eassumption.
Qed.

End EinsumLemmas.

Section MaskLemmas.
Context {A : Type} {SA : Scalar A}.

Lemma shape_tensor_eq (m : Tensor A) (c : A) : shape (tensor_eq m c) = shape m.
Proof. reflexivity. Qed.

Lemma masked_fill_inv (t r : Tensor A) (m : Tensor bool) (v : A) :
  masked_fill t m v = inr r -> broadcast_shapes (shape t) (shape m) = inr (shape r).
Proof.
  unfold masked_fill, bind, ret.
  destruct (broadcast_shapes (shape t) (shape m)) as [e|s]; [discriminate|].
  intros [= <-]. reflexivity.
Qed.

(** The masking step of [forward] for a mask that broadcasts to the
    shape of the scores. *)
Lemma masked_fill_ok (t m : Tensor A) (v : A) :
  broadcast_shapes (shape t) (shape m) = inr (shape t) ->
  exists r,
    masked_fill t (tensor_eq m szero) v = inr r /\
    shape r = shape t /\
    forall idx, in_bounds (shape t) idx ->
      get r idx =
      if seqb (get m (bindex (shape m) idx)) szero then v else get t idx.
Proof.
  intros Hbc. unfold masked_fill. rewrite shape_tensor_eq, Hbc. simpl.
  eexists. split; [reflexivity|]. split; [reflexivity|].
  intros idx Hb. rewrite get_build by exact Hb.
  unfold tensor_eq. rewrite getb_build by (eapply bindex_in_bounds; eauto).
  rewrite (bindex_self _ _ Hb). reflexivity.
Qed.

(** A key dimension other than 1 is not changed by the mask. *)
Lemma broadcast_last_dim (n h q k s0 s1 s2 s3 : nat) (sm : list nat) :
  broadcast_shapes [n; h; q; k] sm = inr [s0; s1; s2; s3] -> k <> 1 -> s3 = k.
Proof.
  unfold broadcast_shapes, bind, ret. simpl rev at 1.
  destruct (bcast_rev [k; q; h; n] (rev sm)) as [e|r] eqn:Hr; [discriminate|].
  intros [= Hs] Hk.
  assert (Hr' : r = [s3; s2; s1; s0]).
  { rewrite <- (rev_involutive r), Hs. reflexivity. }
  subst r. destruct (rev sm) as [|y rm]; simpl in Hr.
  - injection Hr as <- _ _ _. reflexivity.
  - unfold bind in Hr.
    destruct (bdim k y) as [e|d] eqn:Hd; [discriminate|].
    destruct (match rm with [] => _ | _ => _ end); [discriminate|].
    injection Hr as -> _. apply bdim_inv in Hd. lia.
Qed.

(** *** make_trg_mask *)

Lemma make_trg_mask_ok (trg : Tensor Z) (N L : nat) :
  shape trg = [N; L] ->
  exists m : Tensor A,
    make_trg_mask trg = inr m /\
    shape m = [N; 1; L; L] /\
    forall n q k, n < N -> q < L -> k < L ->
      get m [n; 0; q; k] = if k <=? q then sone else szero.
Proof.
  intros Hs. unfold make_trg_mask. rewrite Hs.
  unfold tril, ones, expand. simpl.
  rewrite !Nat.eqb_refl. simpl.
  eexists. split; [reflexivity|]. split; [reflexivity|].
  intros n q k Hn Hq Hk.
  rewrite get_build by (apply in_bounds4; lia).
  unfold bindex. simpl. rewrite !bcoord_lt by lia.
  rewrite get_build by (repeat constructor; lia).
  simpl. destruct (k <=? q); [|reflexivity].
  rewrite get_build by (repeat constructor; lia). reflexivity.
Qed.

Lemma make_trg_mask_inv (trg : Tensor Z) (m : Tensor A) :
  make_trg_mask trg = inr m -> exists N L, shape trg = [N; L].
Proof.
  unfold make_trg_mask.
  destruct (shape trg) as [|N [|L [|? ?]]]; try discriminate. eauto.
Qed.

End MaskLemmas.

Section SoftmaxLemmas.
Context {A : Type} {SA : Scalar A} {FA : Floating A}.

Lemma softmax_inv (t r : Tensor A) (dim : nat) :
  softmax t dim = inr r -> shape r = shape t.
Proof.
  unfold softmax. destruct (nth_error (shape t) dim); [|discriminate].
  intros [= <-]. reflexivity.
Qed.

Lemma softmax_ok (t : Tensor A) (n h q k : nat) :
  shape t = [n; h; q; k] ->
  exists r,
    softmax t 3 = inr r /\
    shape r = [n; h; q; k] /\
    forall i j x y, i < n -> j < h -> x < q -> y < k ->
      get r [i; j; x; y] =
      nth y (softmax_list (map (fun c => get t [i; j; x; c]) (seq 0 k))) szero.
Proof.
  intros Hs. unfold softmax. rewrite Hs. simpl.
  eexists. split; [reflexivity|]. split; [reflexivity|].
  intros i j x y Hi Hj Hx Hy.
  rewrite get_build by (apply in_bounds4; assumption). reflexivity.
Qed.

Lemma shape_div_scalar (t : Tensor A) (c : A) : shape (div_scalar t c) = shape t.
Proof. reflexivity. Qed.

Lemma get_div_scalar (t : Tensor A) (c : A) (idx : list nat) :
  in_bounds (shape t) idx -> get (div_scalar t c) idx = sdiv (get t idx) c.
Proof. intros Hb. unfold div_scalar. rewrite get_build by exact Hb. reflexivity. Qed.

Lemma length_softmax_list (xs : list A) : length (softmax_list xs) = length xs.
Proof. unfold softmax_list. rewrite !length_map. reflexivity. Qed.

End SoftmaxLemmas.

Section ScoresLemmas.
Context {A : Type} {SA : Scalar A}.

Lemma nn_Linear_inv (i o : Z) (b : bool) (p : Init A) (l : Linear A) :
  nn_Linear i o b p = inr l ->
  (0 <= i)%Z /\ (0 <= o)%Z /\ shape (weight l) = [Z.to_nat o; Z.to_nat i].
Proof.
  unfold nn_Linear.
  destruct (Z.ltb_spec i 0); [discriminate|].
  destruct (Z.ltb_spec o 0); [discriminate|].
  simpl. intros [= <-]. simpl. auto.
Qed.

Lemma init_configured (E H : Z) (p : Params A) (self : SelfAttention A) :
  SelfAttention_init E H p = inr self -> (0 < H)%Z ->
  configured self (Z.to_nat E) (Z.to_nat H) (Z.to_nat (E / H)) /\
  embed_size self = E /\ heads self = H /\ (0 <= E)%Z /\ (H | E)%Z.
Proof.
  intros Hi HH. unfold SelfAttention_init, floordiv in Hi.
  destruct (Z.eqb_spec H 0); [lia|]. cbn [bind ret] in Hi.
  destruct (Z.eqb_spec (E / H * H) E) as [Hdiv|]; [|discriminate].
  cbn [negb] in Hi. unfold bind in Hi.
  destruct (nn_Linear (E / H) (E / H) false (values_init p)) as [|lv] eqn:Hv;
    [discriminate|].
  destruct (nn_Linear (E / H) (E / H) false (keys_init p)) as [|lk] eqn:Hk;
    [discriminate|].
  destruct (nn_Linear (E / H) (E / H) false (queries_init p)) as [|lq] eqn:Hq;
    [discriminate|].
  destruct (nn_Linear (H * (E / H)) E true (fc_out_init p)) as [|lo] eqn:Ho;
    [discriminate|].
  injection Hi as <-.
  apply nn_Linear_inv in Hv, Hk, Hq, Ho.
  destruct Hv as [HD [_ Hv]], Hk as [_ [_ Hk]], Hq as [_ [_ Hq]],
           Ho as [_ [HE Ho]].
  unfold configured; simpl.
  assert (HHD : Z.to_nat E = Z.to_nat H * Z.to_nat (E / H)).
  { rewrite <- Z2Nat.inj_mul by lia. f_equal. lia. }
  repeat split; try assumption; try (rewrite Z2Nat.id; lia).
  - rewrite Ho. f_equal. f_equal. rewrite Z2Nat.inj_mul by lia. reflexivity.
  - exists (E / H)%Z. lia.
Qed.

Lemma shape_at_nth (t : Tensor A) (i d : nat) :
  nth_error (shape t) i = Some d -> shape_at t i = inr d.
Proof. intros Hn. unfold shape_at. rewrite Hn. reflexivity. Qed.

Lemma reshape_split (t : Tensor A) (n l h d e : nat) :
  shape t = [n; l; e] -> e = h * d ->
  reshape t [Z.of_nat n; Z.of_nat l; Z.of_nat h; Z.of_nat d] =
  inr (mkTensor [n; l; h; d] (data t)).
Proof.
  intros Hs He. rewrite reshape_nonneg by (repeat constructor; lia).
  simpl map. rewrite !Nat2Z.id, Hs.
  replace (numel [n; l; h; d] =? numel [n; l; e]) with true; [reflexivity|].
  symmetry. apply Nat.eqb_eq. subst e. simpl. ring.
Qed.

Lemma attention_scores_ok (self : SelfAttention A) (E H D N V K Q : nat)
      (values_in keys_in query_in : Tensor A) (mask : option (Tensor A)) :
  configured self E H D ->
  shape values_in = [N; V; E] -> shape keys_in = [N; K; E] ->
  shape query_in = [N; Q; E] -> mask_ok mask [N; H; Q; K] ->
  exists s,
    attention_scores self values_in keys_in query_in mask = inr s /\
    scores_spec query_in mask N H D V K Q s.
Proof.
  intros (HE & HH & HD & HED & Hwv & Hwk & Hwq & Hwo) Hv Hk Hq Hm.
  unfold attention_scores.
  rewrite (shape_at_nth query_in 0 N) by (rewrite Hq; reflexivity).
  rewrite (shape_at_nth values_in 1 V) by (rewrite Hv; reflexivity).
  rewrite (shape_at_nth keys_in 1 K) by (rewrite Hk; reflexivity).
  rewrite (shape_at_nth query_in 1 Q) by (rewrite Hq; reflexivity).
  cbn [bind]. rewrite HH, HD.
  rewrite (reshape_split values_in N V H D E Hv HED).
  rewrite (reshape_split keys_in N K H D E Hk HED).
  rewrite (reshape_split query_in N Q H D E Hq HED).
  cbn [bind].
  destruct (linear_ok (values self) (mkTensor [N; V; H; D] (data values_in))
                      D D [N; V; H] Hwv eq_refl) as (vp & Hvp & Hsvp).
  destruct (linear_ok (keys self) (mkTensor [N; K; H; D] (data keys_in))
                      D D [N; K; H] Hwk eq_refl) as (kp & Hkp & Hskp).
  destruct (linear_ok (queries self) (mkTensor [N; Q; H; D] (data query_in))
                      D D [N; Q; H] Hwq eq_refl) as (qp & Hqp & Hsqp).
  rewrite Hvp, Hkp, Hqp. cbn [bind].
  destruct (einsum_scores_ok (mkTensor [N; Q; H; D] (data query_in)) kp
                             N Q K H D eq_refl Hskp) as (er & Her & Hser & Hger).
  rewrite Her. cbn [bind].
  destruct mask as [m|].
  - simpl in Hm. rewrite <- Hser in Hm.
    destruct (masked_fill_ok er m (sconst (- 10 ^ 20)%Z) Hm)
      as (em & Hem & Hsem & Hgem).
    rewrite Hem. cbn [bind ret]. eexists. split; [reflexivity|].
    unfold scores_spec; simpl.
    repeat split; try assumption; try congruence.
    intros n h q k Hn Hh Hq' Hk'. apply Hgem.
    rewrite Hser. apply in_bounds4; assumption.
  - cbn [bind ret]. eexists. split; [reflexivity|].
    unfold scores_spec; simpl.
    repeat split; try assumption; try congruence.
Qed.

End ScoresLemmas.

Section ForwardLemmas.
Context {A : Type} {SA : Scalar A} {FA : Floating A}.

Lemma forward_trace_ok (self : SelfAttention A) (E H D N K Q : nat)
      (values_in keys_in query_in : Tensor A) (mask : option (Tensor A)) :
  configured self E H D ->
  shape values_in = [N; K; E] -> shape keys_in = [N; K; E] ->
  shape query_in = [N; Q; E] -> mask_ok mask [N; H; Q; K] ->
  exists t,
    forward_trace self values_in keys_in query_in mask = inr t /\
    trace_spec self query_in mask E N H D K Q t.
Proof.
  intros Hc Hv Hk Hq Hm.
  destruct (attention_scores_ok self E H D N K K Q values_in keys_in query_in
                                mask Hc Hv Hk Hq Hm) as (s & Hs & Hspec).
  destruct Hc as (HE & HH & HD & HED & Hwv & Hwk & Hwq & Hwo).
  pose proof Hspec as (HsN & HsQ & Hsv & Hsk & Hsq & Hser & Hsem & Hger & Hgem).
  unfold forward_trace. rewrite Hs. cbn [bind].
  set (scaled := div_scalar (s_energy s) (ssqrt (sconst (embed_size self)))).
  assert (Hsc : shape scaled = [N; H; Q; K]) by exact Hsem.
  destruct (softmax_ok scaled N H Q K Hsc) as (att & Hatt & Hsatt & Hgatt).
  rewrite Hatt. cbn [bind].
  destruct (einsum_heads_ok att (s_values s) N Q K H D Hsatt Hsv)
    as (ho & Hho & Hsho & Hgho).
  rewrite Hho. cbn [bind].
  rewrite HsN, HsQ, HH, HD.
  rewrite reshape_nonneg by (repeat constructor; lia).
  simpl map. rewrite !Nat2Z.id, Z2Nat.inj_mul, !Nat2Z.id, Hsho by lia.
  replace (numel [N; Q; H * D] =? numel [N; Q; H; D]) with true
    by (symmetry; apply Nat.eqb_eq; simpl; ring).
  cbn [bind].
  destruct (linear_ok (fc_out self) (mkTensor [N; Q; H * D] (data ho))
                      E (H * D) [N; Q] Hwo eq_refl) as (out & Hout & Hsout).
  rewrite Hout. cbn [bind ret].
  eexists. split; [reflexivity|].
  unfold trace_spec; simpl.
  repeat split; try assumption.
  intros n h q k Hn Hh Hq' Hk'. unfold scaled.
  apply get_div_scalar. rewrite Hsem. apply in_bounds4; assumption.
Qed.

End ForwardLemmas.

(** * Inversion of successful calls *)

Ltac bind_inv H :=
  match type of H with
  | bind ?m _ = inr _ =>
      let E := fresh "E" in
      destruct m eqn:E; cbn [bind] in H; [discriminate H|]
  end.

Section Inversion.
Context {A : Type} {SA : Scalar A}.

Lemma attention_scores_inv (self : SelfAttention A)
      (values_in keys_in query_in : Tensor A) (mask : option (Tensor A))
      (s : Scores A) :
  attention_scores self values_in keys_in query_in mask = inr s ->
  exists V K values_r keys_r,
    shape_at query_in 0 = inr (s_N s) /\
    shape_at values_in 1 = inr V /\
    shape_at keys_in 1 = inr K /\
    shape_at query_in 1 = inr (s_query_len s) /\
    reshape values_in [Z.of_nat (s_N s); Z.of_nat V; heads self; head_dim self]
      = inr values_r /\
    reshape keys_in [Z.of_nat (s_N s); Z.of_nat K; heads self; head_dim self]
      = inr keys_r /\
    reshape query_in [Z.of_nat (s_N s); Z.of_nat (s_query_len s);
                      heads self; head_dim self] = inr (s_queries s) /\
    linear (values self) values_r = inr (s_values s) /\
    linear (keys self) keys_r = inr (s_keys s) /\
    linear (queries self) (s_queries s) = inr (s_query s) /\
    einsum "nqhd,nkhd->nhqk" [s_queries s; s_keys s] = inr (s_energy_raw s) /\
    match mask with
    | Some m => masked_fill (s_energy_raw s) (tensor_eq m szero)
                            (sconst (- 10 ^ 20)%Z)
    | None => ret (s_energy_raw s)
    end = inr (s_energy s).
Proof.
  intros Hs. unfold attention_scores in Hs.
  repeat bind_inv Hs. injection Hs as <-. simpl.
  do 4 eexists. repeat split; eassumption.
Qed.

End Inversion.

Section InversionForward.
Context {A : Type} {SA : Scalar A} {FA : Floating A}.

Lemma forward_trace_inv (self : SelfAttention A)
      (values_in keys_in query_in : Tensor A) (mask : option (Tensor A))
      (t : Trace A) :
  forward_trace self values_in keys_in query_in mask = inr t ->
  exists out_flat,
    attention_scores self values_in keys_in query_in mask = inr (t_scores t) /\
    t_scaled t = div_scalar (s_energy (t_scores t))
                            (ssqrt (sconst (embed_size self))) /\
    softmax (t_scaled t) 3 = inr (t_attention t) /\
    einsum "nhql,nlhd->nqhd" [t_attention t; s_values (t_scores t)]
      = inr (t_heads t) /\
    reshape (t_heads t)
            [Z.of_nat (s_N (t_scores t)); Z.of_nat (s_query_len (t_scores t));
             (heads self * head_dim self)%Z] = inr out_flat /\
    linear (fc_out self) out_flat = inr (t_out t).
Proof.
  intros Ht. unfold forward_trace in Ht.
  repeat bind_inv Ht. injection Ht as <-. simpl.
  eexists. repeat split; eassumption.
Qed.

Lemma forward_inv (self : SelfAttention A)
      (values_in keys_in query_in : Tensor A) (mask : option (Tensor A))
      (out : Tensor A) :
  forward self values_in keys_in query_in mask = inr out ->
  exists t, forward_trace self values_in keys_in query_in mask = inr t /\
            t_out t = out.
Proof.
  unfold forward, bind, ret.
  destruct (forward_trace self values_in keys_in query_in mask) as [e|t];
    [discriminate|].
  intros [= <-]. eauto.
Qed.

End InversionForward.

(** * Construction *)

Section Construction.
Context {A : Type} {SA : Scalar A}.

(** The attention layer alone.  [SelfAttention.__init__] fails whenever
    [embed_size] is not divisible by [heads]: with the assertion error
    "Embed size needs to be div by heads" (with ZeroDivisionError when
    [heads] is 0), so no module exists on which [forward] could be
    called.  When [embed_size] is divisible by [heads] the assertion
    error is not raised, and for positive [heads] and a non-negative
    [embed_size] the module is built. *)
Lemma attention_init_divisibility (E H : Z) (p : Params A) :
  (~ (H | E)%Z ->
   exists e, SelfAttention_init E H p = inl e /\
             (H <> 0%Z ->
              e = AssertionError "Embed size needs to be div by heads")) /\
  ((H | E)%Z ->
   forall msg, SelfAttention_init E H p <> inl (AssertionError msg)) /\
  ((H | E)%Z -> (0 < H)%Z -> (0 <= E)%Z ->
   exists self, SelfAttention_init E H p = inr self).
Proof.
  split; [|split].
  - intros Hnd. unfold SelfAttention_init, floordiv.
    destruct (Z.eqb_spec H 0) as [->|HH]; cbn [bind ret raise].
    + eexists. split; [reflexivity|]. intros Hc. contradiction.
    + destruct (Z.eqb_spec (E / H * H) E) as [Hdiv|Hdiv]; cbn [negb].
      * exfalso. apply Hnd. exists (E / H)%Z. lia.
      * eexists. split; reflexivity.
  - intros [c ->] msg. unfold SelfAttention_init, floordiv.
    destruct (Z.eqb_spec H 0) as [->|HH]; cbn [bind ret raise];
      [discriminate|].
    rewrite Z.div_mul by exact HH. rewrite Z.eqb_refl. cbn [negb].
    unfold nn_Linear.
    destruct ((c <? 0)%Z || (c <? 0)%Z); cbn [bind raise ret];
      [discriminate|].
    destruct ((H * c <? 0)%Z || (c * H <? 0)%Z); cbn [bind raise ret];
      discriminate.
  - intros [c ->] HH HE. unfold SelfAttention_init, floordiv.
    destruct (Z.eqb_spec H 0) as [->|HH0]; [lia|]. cbn [bind ret].
    rewrite Z.div_mul by exact HH0. rewrite Z.eqb_refl. cbn [negb].
    assert (Hc : (0 <= c)%Z) by nia.
    unfold nn_Linear.
    destruct (Z.ltb_spec c 0); [lia|].
    destruct (Z.ltb_spec (H * c) 0); [nia|].
    destruct (Z.ltb_spec (c * H) 0); [nia|].
    cbn [orb bind ret]. eexists. reflexivity.
Qed.

(** C7.  For target tokens of shape (N, L), [make_trg_mask] returns a
    mask of shape (N, 1, L, L) whose entry (q, k) is one (true) when
    k <= q and zero otherwise, and every token tensor of the same
    shape gives the same mask: padding is not looked at. *)
Theorem make_trg_mask_lower_triangular (trg : Tensor Z) (N L : nat) :
  shape trg = [N; L] ->
  exists m : Tensor A,
    make_trg_mask trg = inr m /\
    shape m = [N; 1; L; L] /\
    (forall n q k, n < N -> q < L -> k < L ->
       get m [n; 0; q; k] = if k <=? q then sone else szero) /\
    (forall trg' : Tensor Z,
       shape trg' = shape trg -> make_trg_mask trg' = inr m).
Proof.
  intros Hs.
  destruct (make_trg_mask_ok (A := A) trg N L Hs) as (m & Hm & Hsm & Hg).
  exists m. repeat split; try assumption.
  intros trg' Hs'. rewrite <- Hm.
  unfold make_trg_mask. rewrite Hs'. reflexivity.
Qed.

End Construction.

Lemma make_trg_mask_lower_triangular_witness :
  exists m : Tensor Z,
    make_trg_mask trg_Z = inr m /\
    shape m = [1; 1; 3; 3] /\
    (forall n q k, n < 1 -> q < 3 -> k < 3 ->
       get m [n; 0; q; k] = if k <=? q then sone else szero) /\
    (forall trg' : Tensor Z,
       shape trg' = shape trg_Z -> make_trg_mask trg' = inr m).
Proof.
  apply (make_trg_mask_lower_triangular (A := Z) trg_Z 1 3). reflexivity.
Defined.

(** * Masking, scaling and softmax *)

Section ForwardTheorems.
Context {A : Type} {SA : Scalar A} {FA : Floating A}.

Lemma shape_energy_of_trace (self : SelfAttention A)
      (values_in keys_in query_in : Tensor A) (mask : option (Tensor A))
      (t : Trace A) :
  forward_trace self values_in keys_in query_in mask = inr t ->
  shape (t_attention t) = shape (s_energy (t_scores t)) /\
  shape (t_scaled t) = shape (s_energy (t_scores t)) /\
  exists N H Q K, shape (s_energy (t_scores t)) = [N; H; Q; K].
Proof.
  intros Ht. apply forward_trace_inv in Ht.
  destruct Ht as (out_flat & Hs & Hsc & Hatt & Hho & _).
  apply softmax_inv in Hatt. rewrite Hsc in Hatt. simpl in Hatt.
  split; [exact Hatt|]. split; [rewrite Hsc; reflexivity|].
  apply einsum_heads_inv in Hho.
  destruct Hho as (n1 & h1 & q & l1 & n2 & l2 & h2 & d & n & h & l &
                   Ha & _).
  rewrite <- Hatt, Ha. eauto.
Qed.

(** C6.  On every successful call with a mask that broadcasts to the
    shape of the scores, the masking step puts the sentinel -1e20 at
    the positions where the mask is zero and leaves the score as the
    einsum gave it where the mask is non-zero; without a mask every
    score is left as it is.  The division by sqrt(embed_size) is
    applied afterwards, to the masked scores. *)
Theorem masking_before_scaling (self : SelfAttention A)
        (values_in keys_in query_in : Tensor A) (mask : option (Tensor A))
        (t : Trace A) :
  forward_trace self values_in keys_in query_in mask = inr t ->
  mask_ok mask (shape (s_energy_raw (t_scores t))) ->
  shape (s_energy (t_scores t)) = shape (s_energy_raw (t_scores t)) /\
  forall idx, in_bounds (shape (s_energy_raw (t_scores t))) idx ->
    match mask with
    | None =>
        get (s_energy (t_scores t)) idx = get (s_energy_raw (t_scores t)) idx
    | Some m =>
        if seqb (get m (bindex (shape m) idx)) szero
        then get (s_energy (t_scores t)) idx = sconst (- 10 ^ 20)%Z
        else get (s_energy (t_scores t)) idx
             = get (s_energy_raw (t_scores t)) idx
    end /\
    get (t_scaled t) idx =
    sdiv (get (s_energy (t_scores t)) idx) (ssqrt (sconst (embed_size self))).
Proof.
  intros Ht Hm. apply forward_trace_inv in Ht.
  destruct Ht as (out_flat & Hs & Hsc & _).
  apply attention_scores_inv in Hs.
  destruct Hs as (V & K & vr & kr & _ & _ & _ & _ & _ & _ & _ & _ & _ & _ & _
                  & Hmask).
  assert (Hshape : shape (s_energy (t_scores t))
                   = shape (s_energy_raw (t_scores t)) /\
                   forall idx, in_bounds (shape (s_energy_raw (t_scores t))) idx ->
                     get (s_energy (t_scores t)) idx
                     = masked_score mask (s_energy_raw (t_scores t)) idx).
  { destruct mask as [m|]; cbn [mask_ok] in Hm.
    - destruct (masked_fill_ok (s_energy_raw (t_scores t)) m
                               (sconst (- 10 ^ 20)%Z) Hm)
        as (r & Hr & Hsr & Hgr).
      rewrite Hr in Hmask. injection Hmask as <-. auto.
    - injection Hmask as <-. auto. }
  destruct Hshape as [Hshape Hget]. split; [exact Hshape|].
  intros idx Hb. split.
  - specialize (Hget idx Hb). unfold masked_score in Hget.
    destruct mask as [m|]; [|exact Hget].
    destruct (seqb (get m (bindex (shape m) idx)) szero); exact Hget.
  - rewrite Hsc. apply get_div_scalar. rewrite Hshape. exact Hb.
Qed.

(** C5.  On every successful call the attention weights of a row
    (n, h, q) are the softmax, over the key positions, of the scores of
    that row divided by the square root of [embed_size] (the full
    embedding size of the module, not [head_dim]); no other row
    enters. *)
Theorem scaled_softmax_over_keys (self : SelfAttention A)
        (values_in keys_in query_in : Tensor A) (mask : option (Tensor A))
        (t : Trace A) :
  forward_trace self values_in keys_in query_in mask = inr t ->
  exists N H Q K,
    shape (s_energy (t_scores t)) = [N; H; Q; K] /\
    shape (t_attention t) = [N; H; Q; K] /\
    forall n h q k, n < N -> h < H -> q < Q -> k < K ->
      get (t_attention t) [n; h; q; k] =
      nth k (softmax_list
               (map (fun j => sdiv (get (s_energy (t_scores t)) [n; h; q; j])
                                   (ssqrt (sconst (embed_size self))))
                    (seq 0 K)))
          szero.
Proof.
  intros Ht.
  destruct (shape_energy_of_trace _ _ _ _ _ _ Ht)
    as (Hsa & Hss & N & H & Q & K & Hse).
  exists N, H, Q, K. split; [exact Hse|]. split; [congruence|].
  apply forward_trace_inv in Ht.
  destruct Ht as (out_flat & _ & Hsc & Hatt & _).
  rewrite Hse in Hss.
  destruct (softmax_ok (t_scaled t) N H Q K Hss) as (r & Hr & _ & Hg).
  rewrite Hr in Hatt. injection Hatt as ->.
  intros n h q k Hn Hh Hq Hk. rewrite Hg by assumption.
  f_equal. f_equal. apply map_ext_in. intros j Hj. apply in_seq in Hj.
  rewrite Hsc. apply get_div_scalar. rewrite Hse.
  apply in_bounds4; lia.
Qed.

End ForwardTheorems.

(** * Shapes and shape errors *)

Section ShapeTheorems.
Context {A : Type} {SA : Scalar A} {FA : Floating A}.

(** A well-formed call returns, and its result has the shape of the
    query. *)
Lemma forward_total (E H : nat) (p : Params A) (self : SelfAttention A)
      (N K Q : nat) (values_in keys_in query_in : Tensor A)
      (mask : option (Tensor A)) :
  SelfAttention_init (Z.of_nat E) (Z.of_nat H) p = inr self -> 0 < H ->
  shape values_in = [N; K; E] -> shape keys_in = [N; K; E] ->
  shape query_in = [N; Q; E] -> mask_ok mask [N; H; Q; K] ->
  exists out,
    forward self values_in keys_in query_in mask = inr out /\
    shape out = [N; Q; E].
Proof.
  intros Hi HH Hv Hk Hq Hm.
  apply init_configured in Hi; [|lia].
  destruct Hi as (Hc & _). rewrite !Nat2Z.id in Hc.
  destruct (forward_trace_ok self E H _ N K Q values_in keys_in query_in mask
                             Hc Hv Hk Hq Hm) as (t & Ht & Hspec).
  exists (t_out t). unfold forward. rewrite Ht. split; [reflexivity|].
  apply Hspec.
Qed.

(** C10.  For a module built by [__init__] with [H] > 0 heads, value
    and key tensors of one length [K] and a query tensor of length
    [Q], all of embedding size [E] and batch size [N], and no mask or
    one that broadcasts to the scores, [forward] returns a tensor of
    shape (N, Q, E), the shape of the query, whatever [K] is. *)
Theorem forward_output_shape (E H : nat) (p : Params A)
        (self : SelfAttention A) (N K Q : nat)
        (values_in keys_in query_in : Tensor A) (mask : option (Tensor A)) :
  SelfAttention_init (Z.of_nat E) (Z.of_nat H) p = inr self -> 0 < H ->
  shape values_in = [N; K; E] -> shape keys_in = [N; K; E] ->
  shape query_in = [N; Q; E] -> mask_ok mask [N; H; Q; K] ->
  exists out,
    forward self values_in keys_in query_in mask = inr out /\
    shape out = [N; Q; E] /\ shape out = shape query_in.
Proof.
  intros Hi HH Hv Hk Hq Hm.
  destruct (forward_total E H p self N K Q values_in keys_in query_in mask
                          Hi HH Hv Hk Hq Hm) as (out & Hout & Hs).
  exists out. repeat split; congruence.
Qed.

Lemma linear_keeps_len (l : Linear A) (x y : Tensor A) (n len a b : nat) :
  linear l x = inr y -> shape x = [n; len; a; b] ->
  exists o, shape y = [n; len; a; o].
Proof.
  intros Hl Hx. apply linear_inv in Hl.
  destruct Hl as (o & i & lead & _ & Hsx & Hsy).
  rewrite Hx in Hsx.
  change [n; len; a; b] with ([n; len; a] ++ [b]) in Hsx.
  apply app_inj_tail in Hsx. destruct Hsx as [<- _].
  exists o. exact Hsy.
Qed.

(** The lengths which the second einsum of [forward] meets. *)
Lemma forward_trace_lengths (self : SelfAttention A)
      (values_in keys_in query_in : Tensor A) (mask : option (Tensor A))
      (t : Trace A) (V K : nat) :
  forward_trace self values_in keys_in query_in mask = inr t ->
  shape_at values_in 1 = inr V -> shape_at keys_in 1 = inr K ->
  K = 1 \/ exists l, bdim K V = inr l.
Proof.
  intros Ht HV HK.
  destruct (Nat.eq_dec K 1) as [HK1|HK1]; [left; exact HK1|right].
  apply forward_trace_inv in Ht.
  destruct Ht as (out_flat & Hs & Hsc & Hatt & Hho & _).
  apply attention_scores_inv in Hs.
  destruct Hs as (V' & K' & vr & kr & _ & HV' & HK' & _ & Hvr & Hkr & _ &
                  Hvp & Hkp & _ & Her & Hmask).
  rewrite HV in HV'. injection HV' as <-.
  rewrite HK in HK'. injection HK' as <-.
  apply reshape_split_inv in Hvr, Hkr.
  destruct Hvr as (hv & dv & Hvr), Hkr as (hk & dk & Hkr).
  destruct (linear_keeps_len _ _ _ _ _ _ _ Hvp Hvr) as (ov & Hsv).
  destruct (linear_keeps_len _ _ _ _ _ _ _ Hkp Hkr) as (ok & Hsk).
  apply einsum_scores_inv in Her.
  destruct Her as (n1 & q & h1 & d1 & n2 & k & h2 & d2 & n & h & _ & Hsk' &
                   Hser).
  rewrite Hsk in Hsk'. injection Hsk' as _ <- _ _.
  apply softmax_inv in Hatt. rewrite Hsc in Hatt. simpl in Hatt.
  apply einsum_heads_inv in Hho.
  destruct Hho as (a0 & a1 & a2 & a3 & b0 & b1 & b2 & b3 & n' & h' & l &
                   Ha & Hb & Hl & _).
  rewrite Hsv in Hb. injection Hb as _ <- _ _.
  assert (a3 = K) as ->.
  { destruct mask as [m|].
    - apply masked_fill_inv in Hmask.
      rewrite Hser, <- Hatt, Ha in Hmask.
      eapply broadcast_last_dim; eauto.
    - injection Hmask as Hmask. rewrite <- Hmask, Hser in Hatt.
      rewrite Hatt in Ha. injection Ha as _ _ _ <-. reflexivity. }
  eauto.
Qed.

(** C9 (amended).  A call with value_len different from key_len
    returns no result whenever neither of the two lengths is 1: the
    einsum of the attention weights with the values raises.  A key
    length different from the query length is accepted: a well-formed
    call with equal value and key lengths returns for every query
    length. *)
Theorem value_key_length_mismatch (self : SelfAttention A)
        (values_in keys_in query_in : Tensor A) (mask : option (Tensor A)) :
  (forall V K,
     shape_at values_in 1 = inr V -> shape_at keys_in 1 = inr K ->
     V <> K -> V <> 1 -> K <> 1 ->
     exists e, forward_trace self values_in keys_in query_in mask = inl e) /\
  (forall E H p N K Q,
     SelfAttention_init (Z.of_nat E) (Z.of_nat H) p = inr self -> 0 < H ->
     shape values_in = [N; K; E] -> shape keys_in = [N; K; E] ->
     shape query_in = [N; Q; E] -> mask_ok mask [N; H; Q; K] ->
     exists out, forward self values_in keys_in query_in mask = inr out).
Proof.
  split.
  - intros V K HV HK HVK HV1 HK1.
    destruct (forward_trace self values_in keys_in query_in mask)
      as [e|t] eqn:Ht; [eauto|].
    exfalso.
    destruct (forward_trace_lengths _ _ _ _ _ _ V K Ht HV HK)
      as [HK1'|[l Hl]]; [contradiction|].
    rewrite bdim_mismatch in Hl by auto. discriminate.
  - intros E H p N K Q Hi HH Hv Hk Hq Hm.
    destruct (forward_total E H p self N K Q values_in keys_in query_in mask
                            Hi HH Hv Hk Hq Hm) as (out & Hout & _).
    eauto.
Qed.

End ShapeTheorems.


(** * The theorems at concrete inputs *)

Lemma masking_before_scaling_witness :
  exists t,
    forward_trace attn_R x_R x_R x_R (Some causal2_R) = inr t /\
    shape (s_energy (t_scores t)) = shape (s_energy_raw (t_scores t)) /\
    forall idx, in_bounds (shape (s_energy_raw (t_scores t))) idx ->
      (if seqb (get causal2_R (bindex (shape causal2_R) idx)) szero
       then get (s_energy (t_scores t)) idx = sconst (- 10 ^ 20)%Z
       else get (s_energy (t_scores t)) idx
            = get (s_energy_raw (t_scores t)) idx) /\
      get (t_scaled t) idx =
      sdiv (get (s_energy (t_scores t)) idx) (ssqrt (sconst (embed_size attn_R))).
Proof.
  eexists. split; [reflexivity|].
  apply (masking_before_scaling attn_R x_R x_R x_R (Some causal2_R)).
  - reflexivity.
  - reflexivity.
Defined.

Lemma scaled_softmax_over_keys_witness :
  exists t,
    forward_trace attn_R k3_R k3_R x_R None = inr t /\
    exists N H Q K,
      shape (s_energy (t_scores t)) = [N; H; Q; K] /\
      shape (t_attention t) = [N; H; Q; K] /\
      forall n h q k, n < N -> h < H -> q < Q -> k < K ->
        get (t_attention t) [n; h; q; k] =
        nth k (softmax_list
                 (map (fun j => sdiv (get (s_energy (t_scores t)) [n; h; q; j])
                                     (ssqrt (sconst (embed_size attn_R))))
                      (seq 0 K)))
            szero.
Proof.
  eexists. split; [reflexivity|].
  apply (scaled_softmax_over_keys attn_R k3_R k3_R x_R None). reflexivity.
Defined.

Lemma forward_output_shape_witness :
  exists out,
    forward attn_R k3_R k3_R x_R None = inr out /\
    shape out = [1; 2; 4] /\ shape out = shape x_R.
Proof.
  apply (forward_output_shape 4 2 params_R attn_R 1 3 2 k3_R k3_R x_R None).
  - reflexivity.
  - lia.
  - reflexivity.
  - reflexivity.
  - reflexivity.
  - exact I.
Defined.

Lemma value_key_length_mismatch_witness :
  (exists e, forward_trace attn_R v2_R k3_R x_R None = inl e) /\
  (exists out, forward attn_R k3_R k3_R x_R None = inr out).
Proof.
  split.
  - apply (proj1 (value_key_length_mismatch attn_R v2_R k3_R x_R None) 2 3).
    + reflexivity.
    + reflexivity.
    + lia.
    + lia.
    + lia.
  - apply (proj2 (value_key_length_mismatch attn_R k3_R k3_R x_R None)
                 4 2 params_R 1 3 2).
    + reflexivity.
    + lia.
    + reflexivity.
    + reflexivity.
    + reflexivity.
    + exact I.
Defined.

(** C9, as stated, fails: with one value position and three key
    positions the einsum broadcasts the single value over the keys and
    [forward] returns a result. *)
Lemma value_len_1_is_accepted :
  shape_at v1_R 1 = inr 1 /\ shape_at k3_R 1 = inr 3 /\
  exists out,
    forward attn_R v1_R k3_R x_R None = inr out /\ shape out = [1; 2; 4].
Proof.
  split; [reflexivity|]. split; [reflexivity|].
  eexists. split; reflexivity.
Qed.

(** * The query projection *)

Section QueryProjection.
Context {A : Type} {SA : Scalar A} {FA : Floating A}.

Lemma linear_same_shape (l l' : Linear A) (x : Tensor A) :
  shape (weight l) = shape (weight l') ->
  (linear l x = inl RuntimeError /\ linear l' x = inl RuntimeError) \/
  (exists y y', linear l x = inr y /\ linear l' x = inr y').
Proof.
  intros Hs. unfold linear. rewrite Hs.
  destruct (shape (weight l')) as [|o [|i [|? ?]]]; auto.
  destruct (rev (shape x)) as [|last_dim lead_rev]; auto.
  destruct (last_dim =? i); auto.
  right. eexists. eexists. split; reflexivity.
Qed.

(** The result of [forward] does not depend on the query projection:
    only whether the layer accepts its input matters, and that is
    decided by the shape of its weights. *)
Lemma forward_ignores_queries (self : SelfAttention A) (lq : Linear A)
      (values_in keys_in query_in : Tensor A) (mask : option (Tensor A)) :
  shape (weight lq) = shape (weight (queries self)) ->
  forward (with_queries self lq) values_in keys_in query_in mask
  = forward self values_in keys_in query_in mask.
Proof.
  intros Hs.
  unfold forward, forward_trace, attention_scores, with_queries.
  cbn [embed_size heads head_dim values keys queries fc_out].
  repeat match goal with
         | |- context [bind ?m _] =>
             lazymatch m with
             | bind _ _ => fail
             | linear lq _ => fail
             | linear (queries self) _ => fail
             | _ => destruct m; cbn [bind]; [reflexivity|]
             end
         end.
  match goal with
  | |- context [linear lq ?x] =>
      destruct (linear_same_shape lq (queries self) x Hs)
        as [[-> ->]|(y & y' & -> & ->)]
  end; cbn [bind]; [reflexivity|].
  repeat (cbn [bind ret s_N s_query_len s_values s_energy];
          match goal with
          | |- context [bind ?m _] =>
              lazymatch m with
              | bind _ _ => fail
              | _ => destruct m; cbn [bind ret]; [reflexivity|]
              end
          end).
  reflexivity.
Qed.

Lemma init_with_queries (E H : Z) (p : Params A) (qi : Init A)
      (self self' : SelfAttention A) :
  SelfAttention_init E H p = inr self ->
  SelfAttention_init E H (with_queries_init p qi) = inr self' ->
  self' = with_queries self (queries self') /\
  shape (weight (queries self')) = shape (weight (queries self)).
Proof.
  unfold SelfAttention_init, with_queries_init.
  cbn [values_init keys_init queries_init fc_out_init].
  intros Hi Hi'.
  bind_inv Hi. cbn [bind] in Hi'.
  destruct (negb (z * H =? E)%Z); [discriminate|].
  bind_inv Hi. cbn [bind] in Hi'.
  bind_inv Hi. cbn [bind] in Hi'.
  destruct (nn_Linear z z false (queries_init p)) as [|lq] eqn:Hq;
    cbn [bind] in Hi; [discriminate|].
  destruct (nn_Linear z z false qi) as [|lq'] eqn:Hq';
    cbn [bind] in Hi'; [discriminate|].
  bind_inv Hi. cbn [bind] in Hi'.
  injection Hi as <-. injection Hi' as <-.
  unfold with_queries; simpl. split; [reflexivity|].
  apply nn_Linear_inv in Hq, Hq'.
  destruct Hq as (_ & _ & ->), Hq' as (_ & _ & ->). reflexivity.
Qed.

(** C4.  Two modules built by [__init__] from parameter settings that
    differ in the initial weights of [self.queries] only return the
    same result (the same tensor, or the same error) on the same
    values, keys, query and mask. *)
Theorem forward_independent_of_query_weights
        (E H : Z) (p : Params A) (qi : Init A) (self self' : SelfAttention A)
        (values_in keys_in query_in : Tensor A) (mask : option (Tensor A)) :
  SelfAttention_init E H p = inr self ->
  SelfAttention_init E H (with_queries_init p qi) = inr self' ->
  forward self' values_in keys_in query_in mask
  = forward self values_in keys_in query_in mask.
Proof.
  intros Hi Hi'.
  destruct (init_with_queries E H p qi self self' Hi Hi') as [-> Hs].
  apply forward_ignores_queries. exact Hs.
Qed.

End QueryProjection.

Lemma forward_independent_of_query_weights_witness :
  forward attn5_R x_R x_R x_R (Some causal2_R)
  = forward attn_R x_R x_R x_R (Some causal2_R).
Proof.
  apply (forward_independent_of_query_weights
           4 2 params_R (diag_init 5%R) attn_R attn5_R).
  - reflexivity.
  - reflexivity.
Defined.

(** * The scores and the query projection *)

(** C1 at a concrete input.  [SelfAttention(4, 2)] with identity value
    and key projections and a query projection that doubles its input,
    called on the sequence ((1,2,3,4), (5,6,7,8)) as values, keys and
    query: the projected query of batch 0, position 0, head 0 is (2, 4)
    and the projected key is (1, 2), so the score of the claim is
    2*1 + 4*2 = 10; the score the code computes is 1*1 + 2*2 = 5, the
    product of the reshaped, unprojected query with the projected key. *)
Theorem scores_at_doubling_query_projection :
  SelfAttention_init 4 2 params_Z = inr attn_Z /\
  exists s,
    attention_scores attn_Z x_Z x_Z x_Z None = inr s /\
    data (s_query s) = [2; 4; 6; 8; 10; 12; 14; 16]%Z /\
    data (s_keys s) = [1; 2; 3; 4; 5; 6; 7; 8]%Z /\
    sum_list (map (fun d => smul (get (s_query s) [0; 0; 0; d])
                                 (get (s_keys s) [0; 0; 0; d]))
                  (seq 0 2)) = 10%Z /\
    get (s_energy_raw s) [0; 0; 0; 0] = 5%Z /\
    sum_list (map (fun d => smul (get (s_queries s) [0; 0; 0; d])
                                 (get (s_keys s) [0; 0; 0; d]))
                  (seq 0 2)) = 5%Z.
Proof.
  split; [reflexivity|].
  eexists. split; [reflexivity|].
  repeat split; vm_compute; reflexivity.
Qed.

(** * The projections at given positions *)

Section Projections.
Context {A : Type} {SA : Scalar A}.

Lemma linear_get4 (l : Linear A) (x y : Tensor A) (o i a b c : nat) :
  linear l x = inr y -> shape (weight l) = [o; i] -> shape x = [a; b; c; i] ->
  bias l = None ->
  forall n1 n2 n3 j, n1 < a -> n2 < b -> n3 < c -> j < o ->
    get y [n1; n2; n3; j] =
    sum_list (map (fun d => smul (get x [n1; n2; n3; d]) (get (weight l) [j; d]))
                  (seq 0 i)).
Proof.
  intros Hl Hw Hx Hb n1 n2 n3 j H1 H2 H3 Hj.
  unfold linear in Hl. rewrite Hw, Hx in Hl. simpl in Hl.
  rewrite Nat.eqb_refl, Hb in Hl. injection Hl as <-.
  rewrite get_build by (apply in_bounds4; assumption). reflexivity.
Qed.

Lemma attention_scores_projections (self : SelfAttention A)
      (E H D N V K Q : nat) (values_in keys_in query_in : Tensor A)
      (mask : option (Tensor A)) (s : Scores A) :
  attention_scores self values_in keys_in query_in mask = inr s ->
  configured self E H D ->
  shape values_in = [N; V; E] -> shape keys_in = [N; K; E] ->
  shape query_in = [N; Q; E] ->
  linear (values self) (mkTensor [N; V; H; D] (data values_in))
  = inr (s_values s) /\
  linear (keys self) (mkTensor [N; K; H; D] (data keys_in)) = inr (s_keys s).
Proof.
  intros Hs (HE & HH & HD & HED & _) Hv Hk Hq.
  apply attention_scores_inv in Hs.
  destruct Hs as (V' & K' & vr & kr & HN & HV & HK & _ & Hvr & Hkr & _ & Hvp &
                  Hkp & _).
  rewrite (shape_at_nth query_in 0 N) in HN by (rewrite Hq; reflexivity).
  rewrite (shape_at_nth values_in 1 V) in HV by (rewrite Hv; reflexivity).
  rewrite (shape_at_nth keys_in 1 K) in HK by (rewrite Hk; reflexivity).
  injection HN as HN. injection HV as <-. injection HK as <-.
  rewrite <- HN, HH, HD in Hvr, Hkr.
  rewrite (reshape_split values_in N V H D E Hv HED) in Hvr.
  rewrite (reshape_split keys_in N K H D E Hk HED) in Hkr.
  injection Hvr as <-. injection Hkr as <-. auto.
Qed.

(** The three projections are built without bias (lines 17-19). *)
Lemma init_projections_no_bias (E H : Z) (p : Params A)
      (self : SelfAttention A) :
  SelfAttention_init E H p = inr self ->
  bias (values self) = None /\ bias (keys self) = None /\
  bias (queries self) = None.
Proof.
  intros Hi. unfold SelfAttention_init, floordiv in Hi.
  destruct (Z.eqb_spec H 0); [discriminate|]. cbn [bind ret] in Hi.
  destruct (negb (E / H * H =? E)%Z); [discriminate|].
  unfold nn_Linear in Hi.
  destruct ((E / H <? 0)%Z || (E / H <? 0)%Z); [discriminate|].
  cbn [bind ret] in Hi.
  destruct ((H * (E / H) <? 0)%Z || (E <? 0)%Z); [discriminate|].
  cbn [bind ret] in Hi. injection Hi as <-. cbn. auto.
Qed.

End Projections.

Section ScoresTheorems.
Context {A : Type} {SA : Scalar A}.

(** X1.  What the code computes as raw scores on a well-formed call:
    the per-head dot product of the reshaped input query, to which no
    projection is applied, with the projected keys.  [queries] is the
    input query reshaped to (N, query_len, heads, head_dim); [keys] is
    what the layer [self.keys] returns on the input keys reshaped to
    (N, key_len, heads, head_dim), so that keys[n,k,h,d] is the sum over
    j of the reshaped input key at (n,k,h,j) times the weight of
    [self.keys] at (d,j). *)
Theorem scores_from_unprojected_query
        (E H : nat) (p : Params A) (self : SelfAttention A) (N V K Q : nat)
        (values_in keys_in query_in : Tensor A) (mask : option (Tensor A)) :
  SelfAttention_init (Z.of_nat E) (Z.of_nat H) p = inr self -> 0 < H ->
  shape values_in = [N; V; E] -> shape keys_in = [N; K; E] ->
  shape query_in = [N; Q; E] -> mask_ok mask [N; H; Q; K] ->
  exists s,
    attention_scores self values_in keys_in query_in mask = inr s /\
    s_queries s = mkTensor [N; Q; H; E / H] (data query_in) /\
    linear (keys self) (mkTensor [N; K; H; E / H] (data keys_in))
    = inr (s_keys s) /\
    (forall n k h d, n < N -> k < K -> h < H -> d < E / H ->
       get (s_keys s) [n; k; h; d] =
       sum_list (map (fun j =>
                        smul (get (mkTensor [N; K; H; E / H] (data keys_in))
                                  [n; k; h; j])
                             (get (weight (keys self)) [d; j]))
                     (seq 0 (E / H)))) /\
    shape (s_energy_raw s) = [N; H; Q; K] /\
    forall n h q k, n < N -> h < H -> q < Q -> k < K ->
      get (s_energy_raw s) [n; h; q; k] =
      sum_list (map (fun d => smul (get (s_queries s) [n; q; h; d])
                                   (get (s_keys s) [n; k; h; d]))
                    (seq 0 (E / H))).
Proof.
  intros Hi HH Hv Hk Hq Hm.
  pose proof (init_projections_no_bias _ _ _ _ Hi) as (_ & Hbk & _).
  apply init_configured in Hi; [|lia].
  destruct Hi as (Hc & _). rewrite !Nat2Z.id in Hc.
  rewrite <- Nat2Z.inj_div, Nat2Z.id in Hc.
  destruct (attention_scores_ok self E H (E / H) N V K Q values_in keys_in
                                query_in mask Hc Hv Hk Hq Hm)
    as (s & Hs & Hspec).
  exists s. split; [exact Hs|].
  destruct (attention_scores_projections self E H (E / H) N V K Q values_in
              keys_in query_in mask s Hs Hc Hv Hk Hq) as (_ & Hkeys).
  destruct Hspec as (_ & _ & _ & _ & Hsq & Hser & _ & Hger & _).
  split; [exact Hsq|]. split; [exact Hkeys|].
  split; [|split; [exact Hser|exact Hger]].
  intros n k h d Hn Hk' Hh Hd.
  destruct Hc as (_ & _ & _ & _ & _ & Hwk & _).
  exact (linear_get4 (keys self) _ (s_keys s) (E / H) (E / H) N K H
                     Hkeys Hwk eq_refl Hbk n k h d Hn Hk' Hh Hd).
Qed.

End ScoresTheorems.

Lemma scores_from_unprojected_query_witness :
  exists s,
    attention_scores attn_Z x_Z x_Z x_Z None = inr s /\
    s_queries s = mkTensor [1; 2; 2; 4 / 2] (data x_Z) /\
    linear (keys attn_Z) (mkTensor [1; 2; 2; 4 / 2] (data x_Z))
    = inr (s_keys s) /\
    (forall n k h d, n < 1 -> k < 2 -> h < 2 -> d < 4 / 2 ->
       get (s_keys s) [n; k; h; d] =
       sum_list (map (fun j =>
                        smul (get (mkTensor [1; 2; 2; 4 / 2] (data x_Z))
                                  [n; k; h; j])
                             (get (weight (keys attn_Z)) [d; j]))
                     (seq 0 (4 / 2)))) /\
    shape (s_energy_raw s) = [1; 2; 2; 2] /\
    forall n h q k, n < 1 -> h < 2 -> q < 2 -> k < 2 ->
      get (s_energy_raw s) [n; h; q; k] =
      sum_list (map (fun d => smul (get (s_queries s) [n; q; h; d])
                                   (get (s_keys s) [n; k; h; d]))
                    (seq 0 (4 / 2))).
Proof.
  apply (scores_from_unprojected_query 4 2 params_Z attn_Z 1 2 2 2 x_Z x_Z x_Z
                                       None).
  - reflexivity.
  - lia.
  - reflexivity.
  - reflexivity.
  - reflexivity.
  - exact I.
Defined.

(** * Softmax over the real numbers *)

Section RealSoftmax.
Local Open Scope R_scope.

Lemma Reqb_refl (x : R) : Reqb x x = true.
Proof. unfold Reqb. destruct (Req_dec_T x x); [reflexivity|contradiction]. Qed.

Lemma Reqb_neq (x y : R) : x <> y -> Reqb x y = false.
Proof. intros Hn. unfold Reqb. destruct (Req_dec_T x y); [contradiction|reflexivity]. Qed.

Lemma nth_map_lt {T U : Type} (f : T -> U) (l : list T) (i : nat) (d : U) (d' : T) :
  (i < length l)%nat -> nth i (map f l) d = f (nth i l d').
Proof.
  intros Hi. rewrite (nth_indep _ d (f d')) by (rewrite length_map; exact Hi).
  apply map_nth.
Qed.

Lemma softmax_list_exps (xs : list R) :
  softmax_list xs = map (fun e => e / sum_list (exps xs)) (exps xs).
Proof. reflexivity. Qed.

Lemma sum_list_pos (l : list R) :
  l <> [] -> Forall (fun e => 0 < e) l -> 0 < sum_list l.
Proof.
  intros Hne Hpos. destruct Hpos as [|e l He Hl]; [contradiction|].
  clear Hne. simpl. revert e He.
  induction Hl as [|e' l He' Hl IH]; intros e He; simpl.
  - lra.
  - specialize (IH e' He'). simpl in IH. lra.
Qed.

Lemma exps_pos (xs : list R) : Forall (fun e => 0 < e) (exps xs).
Proof.
  unfold exps. apply Forall_forall. intros e Hin.
  apply in_map_iff in Hin. destruct Hin as [x [<- _]]. apply exp_pos.
Qed.

Lemma sum_exps_pos (xs : list R) : xs <> [] -> 0 < sum_list (exps xs).
Proof.
  intros Hne. apply sum_list_pos; [|apply exps_pos].
  unfold exps. destruct xs; [contradiction|discriminate].
Qed.

Lemma nth_softmax (xs : list R) (i : nat) :
  (i < length xs)%nat ->
  nth i (softmax_list xs) 0 = exp (nth i xs 0 - max_list xs) / sum_list (exps xs).
Proof.
  intros Hi. rewrite softmax_list_exps.
  rewrite (nth_map_lt _ (exps xs) i 0 0) by (unfold exps; rewrite length_map; exact Hi).
  unfold exps at 1. rewrite (nth_map_lt _ xs i 0 0) by exact Hi. reflexivity.
Qed.

(** The weights of two positions of a row differ by the exponential of
    the difference of their scores. *)
Lemma softmax_ratio (xs : list R) (i j : nat) :
  (i < length xs)%nat -> (j < length xs)%nat ->
  nth i (softmax_list xs) 0
  = exp (nth i xs 0 - nth j xs 0) * nth j (softmax_list xs) 0.
Proof.
  intros Hi Hj. rewrite !nth_softmax by assumption.
  replace (nth i xs 0 - max_list xs)
    with ((nth i xs 0 - nth j xs 0) + (nth j xs 0 - max_list xs)) by ring.
  rewrite exp_plus. unfold Rdiv. ring.
Qed.

Lemma softmax_pos (xs : list R) (i : nat) :
  (i < length xs)%nat -> 0 < nth i (softmax_list xs) 0.
Proof.
  intros Hi. rewrite nth_softmax by exact Hi.
  apply Rdiv_lt_0_compat; [apply exp_pos|].
  apply sum_exps_pos. destruct xs; [simpl in Hi; lia|discriminate].
Qed.

Lemma sum_list_map_div (l : list R) (s : R) :
  sum_list (map (fun e => e / s) l) = sum_list l / s.
Proof.
  induction l as [|e l IH]; simpl.
  - unfold Rdiv. ring.
  - rewrite IH. unfold Rdiv. ring.
Qed.

Lemma softmax_sum_1 (xs : list R) : xs <> [] -> sum_list (softmax_list xs) = 1.
Proof.
  intros Hne. rewrite softmax_list_exps, sum_list_map_div.
  apply Rdiv_diag. apply Rgt_not_eq, Rlt_gt, sum_exps_pos, Hne.
Qed.

Lemma nth_le_sum_list (l : list R) (i : nat) :
  Forall (fun e => 0 < e) l -> (i < length l)%nat -> nth i l 0 <= sum_list l.
Proof.
  intros Hpos. revert i. induction Hpos as [|e l He Hl IH]; intros i Hi.
  - simpl in Hi. lia.
  - assert (Hs : 0 <= sum_list l).
    { destruct l as [|r l']; [simpl; lra|].
      apply Rlt_le, sum_list_pos; [discriminate|exact Hl]. }
    change (sum_list (e :: l)) with (e + sum_list l).
    destruct i as [|i]; simpl nth.
    + lra.
    + simpl in Hi. specialize (IH i ltac:(lia)). lra.
Qed.

Lemma softmax_le_1 (xs : list R) (i : nat) :
  (i < length xs)%nat -> nth i (softmax_list xs) 0 <= 1.
Proof.
  intros Hi.
  assert (Hne : xs <> []) by (destruct xs; [simpl in Hi; lia|discriminate]).
  rewrite softmax_list_exps.
  rewrite (nth_map_lt _ (exps xs) i 0 0) by (unfold exps; rewrite length_map; exact Hi).
  pose proof (sum_exps_pos xs Hne) as HS.
  assert (He : nth i (exps xs) 0 <= sum_list (exps xs)).
  { apply nth_le_sum_list; [apply exps_pos|].
    unfold exps. rewrite length_map. exact Hi. }
  replace 1 with (sum_list (exps xs) / sum_list (exps xs)) by (field; lra).
  unfold Rdiv. apply Rmult_le_compat_r; [|exact He].
  left. apply Rinv_0_lt_compat. exact HS.
Qed.

End RealSoftmax.

(** * Causal self-attention *)

Section CausalGeneric.
Context {A : Type} {SA : Scalar A} {FA : Floating A}.

Lemma causal_mask_ok (N H L : nat) :
  broadcast_shapes [N; H; L; L] [N; 1; L; L] = inr [N; H; L; L].
Proof.
  unfold broadcast_shapes. simpl rev. simpl bcast_rev.
  rewrite !bdim_refl. cbn [bind ret].
  assert (Hb : bdim H 1 = inr H).
  { unfold bdim. destruct (Nat.eqb_spec H 1) as [->|]; reflexivity. }
  rewrite Hb. reflexivity.
Qed.

Lemma causal_bindex (N L n h q k : nat) :
  n < N -> q < L -> k < L -> bindex [N; 1; L; L] [n; h; q; k] = [n; 0; q; k].
Proof.
  intros Hn Hq Hk. unfold bindex. simpl.
  rewrite (bcoord_lt N n), (bcoord_lt L q), (bcoord_lt L k) by lia.
  reflexivity.
Qed.

(** Target self-attention on activations of shape (N, L, E) and tokens
    of shape (N, L) returns, with the lower-triangular mask. *)
Lemma target_self_attention_ok (E H : nat) (p : Params A)
      (self : SelfAttention A) (N L : nat) (x : Tensor A) (trg : Tensor Z) :
  SelfAttention_init (Z.of_nat E) (Z.of_nat H) p = inr self -> 0 < H ->
  shape x = [N; L; E] -> shape trg = [N; L] ->
  exists m t,
    target_self_attention self x trg = inr t /\
    trace_spec self x (Some m) E N H (E / H) L L t /\
    shape m = [N; 1; L; L] /\
    forall n q k, n < N -> q < L -> k < L ->
      get m [n; 0; q; k] = if k <=? q then sone else szero.
Proof.
  intros Hi HH Hx Htrg.
  apply init_configured in Hi; [|lia].
  destruct Hi as (Hc & _). rewrite !Nat2Z.id in Hc.
  rewrite <- Nat2Z.inj_div, Nat2Z.id in Hc.
  destruct (make_trg_mask_ok (A := A) trg N L Htrg) as (m & Hm & Hsm & Hgm).
  assert (Hok : mask_ok (Some m) [N; H; L; L]).
  { simpl. rewrite Hsm. apply causal_mask_ok. }
  destruct (forward_trace_ok self E H (E / H) N L L x x x (Some m)
                             Hc Hx Hx Hx Hok) as (t & Ht & Hspec).
  exists m, t. unfold target_self_attention. rewrite Hm. cbn [bind].
  auto.
Qed.

End CausalGeneric.

Section CausalReal.
Local Open Scope R_scope.

Lemma nth_row {T : Type} (f : nat -> T) (K k : nat) (d : T) :
  (k < K)%nat -> nth k (map f (seq 0 K)) d = f k.
Proof.
  intros Hk. rewrite (nth_map_lt f (seq 0 K) k d 0%nat) by (rewrite length_seq; exact Hk).
  rewrite seq_nth by exact Hk. reflexivity.
Qed.

(** In a row of attention weights, the weight of key [k] is the weight
    of key [j] times the exponential of the difference of their scaled
    scores. *)
Lemma attention_ratio (self : SelfAttention R) (query_in : Tensor R)
      (mask : option (Tensor R)) (E N H D K Q : nat) (t : Trace R)
      (n h q k j : nat) :
  trace_spec self query_in mask E N H D K Q t ->
  (n < N)%nat -> (h < H)%nat -> (q < Q)%nat -> (k < K)%nat -> (j < K)%nat ->
  get (t_attention t) [n; h; q; k]
  = exp ((get (s_energy (t_scores t)) [n; h; q; k]
          - get (s_energy (t_scores t)) [n; h; q; j])
         / sqrt (IZR (embed_size self)))
    * get (t_attention t) [n; h; q; j].
Proof.
  intros (_ & _ & _ & _ & _ & Hsc & Hatt & _) Hn Hh Hq Hk Hj.
  rewrite !Hatt by assumption.
  change (@szero R Scalar_R) with 0.
  rewrite (softmax_ratio _ k j) by (rewrite length_map, length_seq; assumption).
  rewrite !nth_row by assumption.
  rewrite !Hsc by assumption.
  f_equal. f_equal. simpl. unfold Rdiv. ring.
Qed.

Lemma attention_bounds (self : SelfAttention R) (query_in : Tensor R)
      (mask : option (Tensor R)) (E N H D K Q : nat) (t : Trace R)
      (n h q k : nat) :
  trace_spec self query_in mask E N H D K Q t ->
  (n < N)%nat -> (h < H)%nat -> (q < Q)%nat -> (k < K)%nat ->
  0 < get (t_attention t) [n; h; q; k] <= 1.
Proof.
  intros (_ & _ & _ & _ & _ & _ & Hatt & _) Hn Hh Hq Hk.
  rewrite Hatt by assumption.
  change (@szero R Scalar_R) with 0.
  split.
  - apply softmax_pos. rewrite length_map, length_seq. exact Hk.
  - apply softmax_le_1. rewrite length_map, length_seq. exact Hk.
Qed.

(** C3 (amended).  For target self-attention with the lower-triangular
    mask, the score of every key position k > q is replaced by the
    sentinel -1e20 before the softmax, so that, in exact arithmetic,
    the weight of such a key is the weight of the diagonal key q times
    exp((-1e20 - energy[n,h,q,q]) / sqrt(embed_size)): positive, and at
    most that exponential. *)
Theorem causal_weight_is_sentinel_ratio
        (E H : nat) (p : Params R) (self : SelfAttention R) (N L : nat)
        (x : Tensor R) (trg : Tensor Z) :
  SelfAttention_init (Z.of_nat E) (Z.of_nat H) p = inr self -> (0 < H)%nat ->
  shape x = [N; L; E] -> shape trg = [N; L] ->
  exists t,
    target_self_attention self x trg = inr t /\
    forall n h q k, (n < N)%nat -> (h < H)%nat -> (q < k)%nat -> (k < L)%nat ->
      get (s_energy (t_scores t)) [n; h; q; k] = IZR (- 10 ^ 20) /\
      get (t_attention t) [n; h; q; k]
      = exp ((IZR (- 10 ^ 20) - get (s_energy_raw (t_scores t)) [n; h; q; q])
             / sqrt (IZR (embed_size self)))
        * get (t_attention t) [n; h; q; q] /\
      0 < get (t_attention t) [n; h; q; k]
      <= exp ((IZR (- 10 ^ 20) - get (s_energy_raw (t_scores t)) [n; h; q; q])
              / sqrt (IZR (embed_size self))).
Proof.
  intros Hi HH Hx Htrg.
  destruct (target_self_attention_ok E H p self N L x trg Hi HH Hx Htrg)
    as (m & t & Ht & Hspec & Hsm & Hgm).
  exists t. split; [exact Ht|].
  intros n h q k Hn Hh Hqk Hk.
  assert (Hq : (q < L)%nat) by lia.
  pose proof Hspec as ((_ & _ & _ & _ & _ & _ & _ & _ & Hem) & _).
  assert (Hek : get (s_energy (t_scores t)) [n; h; q; k] = IZR (- 10 ^ 20)).
  { rewrite Hem by assumption. unfold masked_score.
    rewrite Hsm, causal_bindex, Hgm by assumption.
    destruct (Nat.leb_spec k q); [lia|].
    simpl seqb. rewrite Reqb_refl. reflexivity. }
  assert (Heq : get (s_energy (t_scores t)) [n; h; q; q]
                = get (s_energy_raw (t_scores t)) [n; h; q; q]).
  { rewrite Hem by assumption. unfold masked_score.
    rewrite Hsm, causal_bindex, Hgm by assumption.
    rewrite Nat.leb_refl. simpl seqb. rewrite Reqb_neq by lra. reflexivity. }
  pose proof (attention_ratio self x (Some m) E N H (E / H) L L t n h q k q
                              Hspec Hn Hh Hq Hk Hq) as Hr.
  rewrite Hek, Heq in Hr.
  pose proof (attention_bounds self x (Some m) E N H (E / H) L L t n h q k
                               Hspec Hn Hh Hq Hk) as [Hpos _].
  pose proof (attention_bounds self x (Some m) E N H (E / H) L L t n h q q
                               Hspec Hn Hh Hq Hq) as [_ Hle].
  split; [exact Hek|]. split; [exact Hr|]. split; [exact Hpos|].
  rewrite Hr. rewrite <- (Rmult_1_r (exp _)) at 2.
  apply Rmult_le_compat_l; [left; apply exp_pos|exact Hle].
Qed.

End CausalReal.

(** * Rows of attention weights over the real numbers *)

Section RealRows.
Local Open Scope R_scope.

Lemma map_nth_all {T : Type} (l : list T) (d : T) :
  map (fun k => nth k l d) (seq 0 (length l)) = l.
Proof.
  induction l as [|x l IH]; [reflexivity|].
  simpl. f_equal. rewrite <- seq_shift, map_map. exact IH.
Qed.

Lemma sum_map_scal (c : R) (g : nat -> R) (l : list nat) :
  sum_list (map (fun j => c * g j) l) = c * sum_list (map g l).
Proof.
  induction l as [|j l IH]; simpl; [ring|].
  change (fold_right sadd szero) with (sum_list (A := R)).
  rewrite IH. ring.
Qed.

Lemma sum_map_minus (f g : nat -> R) (l : list nat) :
  sum_list (map (fun j => f j - g j) l)
  = sum_list (map f l) - sum_list (map g l).
Proof.
  induction l as [|j l IH]; simpl; [ring|].
  change (fold_right sadd szero) with (sum_list (A := R)).
  rewrite IH. ring.
Qed.

(** The weights of a row add up to 1. *)
Lemma attention_row_sum (self : SelfAttention R) (query_in : Tensor R)
      (mask : option (Tensor R)) (E N H D K Q : nat) (t : Trace R)
      (n h q : nat) :
  trace_spec self query_in mask E N H D K Q t ->
  (n < N)%nat -> (h < H)%nat -> (q < Q)%nat -> (0 < K)%nat ->
  sum_list (map (fun k => get (t_attention t) [n; h; q; k]) (seq 0 K)) = 1.
Proof.
  intros (_ & _ & _ & _ & _ & _ & Hatt & _) Hn Hh Hq HK.
  set (row := map (fun j => get (t_scaled t) [n; h; q; j]) (seq 0 K)).
  assert (Hlen : length (softmax_list row) = K).
  { rewrite length_softmax_list. unfold row.
    rewrite length_map, length_seq. reflexivity. }
  rewrite (map_ext_in _ (fun k => nth k (softmax_list row) 0)).
  - rewrite <- Hlen at 1. rewrite map_nth_all.
    apply softmax_sum_1. unfold row.
    destruct K; [lia|]. discriminate.
  - intros k Hk. apply in_seq in Hk. apply Hatt; lia.
Qed.

(** A row in which every key but [k0] carries the weight [c] times the
    weight of [k0]: the weighted sum of the values is the value at [k0]
    plus [c] times that weight times the summed differences. *)
Lemma weighted_sum_single (a v : nat -> R) (K k0 : nat) (c : R) :
  sum_list (map a (seq 0 K)) = 1 ->
  (forall j, (j < K)%nat -> j <> k0 -> a j = c * a k0) ->
  sum_list (map (fun j => a j * v j) (seq 0 K))
  = v k0 + c * a k0
           * sum_list (map (fun j => if (j =? k0)%nat then 0 else v j - v k0)
                           (seq 0 K)).
Proof.
  intros Hsum Hrat.
  assert (Hd : sum_list (map (fun j => a j * v j - v k0 * a j) (seq 0 K))
               = sum_list (map (fun j => c * a k0
                                         * (if (j =? k0)%nat then 0
                                            else v j - v k0))
                               (seq 0 K))).
  { f_equal. apply map_ext_in. intros j Hj. apply in_seq in Hj.
    destruct (Nat.eqb_spec j k0) as [->|Hne]; [ring|].
    rewrite (Hrat j) by (lia || assumption). ring. }
  rewrite sum_map_minus, sum_map_scal, Hsum in Hd.
  rewrite (sum_map_scal (c * a k0)) in Hd. lra.
Qed.

End RealRows.

(** * Rows of attention weights on well-formed calls *)

Section TraceOfInit.
Context {A : Type} {SA : Scalar A} {FA : Floating A}.

Lemma forward_trace_of_init (E H : nat) (p : Params A) (self : SelfAttention A)
      (N K Q : nat) (values_in keys_in query_in : Tensor A)
      (mask : option (Tensor A)) :
  SelfAttention_init (Z.of_nat E) (Z.of_nat H) p = inr self -> 0 < H ->
  shape values_in = [N; K; E] -> shape keys_in = [N; K; E] ->
  shape query_in = [N; Q; E] -> mask_ok mask [N; H; Q; K] ->
  exists t,
    forward_trace self values_in keys_in query_in mask = inr t /\
    trace_spec self query_in mask E N H (E / H) K Q t /\
    embed_size self = Z.of_nat E.
Proof.
  intros Hi HH Hv Hk Hq Hm.
  apply init_configured in Hi; [|lia].
  destruct Hi as (Hc & HE & _). rewrite !Nat2Z.id in Hc.
  rewrite <- Nat2Z.inj_div, Nat2Z.id in Hc.
  destruct (forward_trace_ok self E H (E / H) N K Q values_in keys_in query_in
                             mask Hc Hv Hk Hq Hm) as (t & Ht & Hspec).
  exists t. auto.
Qed.

End TraceOfInit.

Section RealRowTheorems.
Local Open Scope R_scope.

(** X2.  On a well-formed call with a positive embedding size, in
    exact real arithmetic, every attention weight lies in [0, 1] and
    the weights of each row (n, h, q) over the key positions add up
    to 1. *)
Theorem attention_rows_are_distributions
        (E H : nat) (p : Params R) (self : SelfAttention R) (N K Q : nat)
        (values_in keys_in query_in : Tensor R) (mask : option (Tensor R)) :
  SelfAttention_init (Z.of_nat E) (Z.of_nat H) p = inr self ->
  (0 < E)%nat -> (0 < H)%nat ->
  shape values_in = [N; K; E] -> shape keys_in = [N; K; E] ->
  shape query_in = [N; Q; E] -> mask_ok mask [N; H; Q; K] ->
  exists t,
    forward_trace self values_in keys_in query_in mask = inr t /\
    forall n h q, (n < N)%nat -> (h < H)%nat -> (q < Q)%nat ->
      (forall k, (k < K)%nat -> 0 <= get (t_attention t) [n; h; q; k] <= 1) /\
      ((0 < K)%nat ->
       sum_list (map (fun k => get (t_attention t) [n; h; q; k]) (seq 0 K)) = 1).
Proof.
  intros Hi _ HH Hv Hk Hq Hm.
  destruct (forward_trace_of_init E H p self N K Q values_in keys_in query_in
                                  mask Hi HH Hv Hk Hq Hm) as (t & Ht & Hspec & _).
  exists t. split; [exact Ht|].
  intros n h q Hn Hh Hq'. split.
  - intros k Hk'.
    assert (Hb : 0 < get (t_attention t) [n; h; q; k] <= 1)
      by (eapply attention_bounds; eauto).
    lra.
  - intros HK. eapply attention_row_sum; eauto.
Qed.

Lemma sum_map_const (c : R) (f : nat -> R) (l : list nat) :
  (forall j, In j l -> f j = c) ->
  sum_list (map f l) = INR (length l) * c.
Proof.
  induction l as [|j l IH]; intros Hf.
  - simpl. ring.
  - change (sum_list (map f (j :: l))) with (f j + sum_list (map f l)).
    rewrite IH by (intros; apply Hf; right; assumption).
    rewrite (Hf j) by (left; reflexivity).
    change (length (j :: l)) with (S (length l)). rewrite S_INR. ring.
Qed.

(** X3.  The degenerate mask, for a positive embedding size: when the
    mask is zero at every key position of a row (n, h, q), every score
    of the row is the sentinel and, in exact real arithmetic, the K
    weights of the row are all 1/K. *)
Theorem fully_masked_row_is_uniform
        (E H : nat) (p : Params R) (self : SelfAttention R) (N K Q : nat)
        (values_in keys_in query_in m : Tensor R) (n h q : nat) :
  SelfAttention_init (Z.of_nat E) (Z.of_nat H) p = inr self ->
  (0 < E)%nat -> (0 < H)%nat ->
  shape values_in = [N; K; E] -> shape keys_in = [N; K; E] ->
  shape query_in = [N; Q; E] ->
  broadcast_shapes [N; H; Q; K] (shape m) = inr [N; H; Q; K] ->
  (n < N)%nat -> (h < H)%nat -> (q < Q)%nat ->
  (forall k, (k < K)%nat -> get m (bindex (shape m) [n; h; q; k]) = 0) ->
  exists t,
    forward_trace self values_in keys_in query_in (Some m) = inr t /\
    forall k, (k < K)%nat ->
      get (s_energy (t_scores t)) [n; h; q; k] = IZR (- 10 ^ 20) /\
      get (t_attention t) [n; h; q; k] = / INR K.
Proof.
  intros Hi _ HH Hv Hk Hq Hm Hn Hh Hq' Hzero.
  destruct (forward_trace_of_init E H p self N K Q values_in keys_in query_in
                                  (Some m) Hi HH Hv Hk Hq Hm)
    as (t & Ht & Hspec & _).
  exists t. split; [exact Ht|].
  pose proof Hspec as ((_ & _ & _ & _ & _ & _ & _ & _ & Hem) & _).
  assert (Hen : forall k, (k < K)%nat ->
                  get (s_energy (t_scores t)) [n; h; q; k] = IZR (- 10 ^ 20)).
  { intros k Hk'. rewrite Hem by assumption. unfold masked_score.
    rewrite Hzero by exact Hk'. simpl seqb. rewrite Reqb_refl. reflexivity. }
  intros k Hk'. split; [apply Hen; exact Hk'|].
  assert (Heq : forall j, (j < K)%nat ->
                  get (t_attention t) [n; h; q; j]
                  = get (t_attention t) [n; h; q; k]).
  { intros j Hj.
    rewrite (attention_ratio self query_in (Some m) E N H (E / H) K Q t
                             n h q j k Hspec Hn Hh Hq' Hj Hk').
    rewrite !Hen by assumption.
    replace ((IZR (- 10 ^ 20) - IZR (- 10 ^ 20)) / sqrt (IZR (embed_size self)))
      with 0 by (unfold Rdiv; ring).
    rewrite exp_0. ring. }
  assert (HK : (0 < K)%nat) by lia.
  pose proof (attention_row_sum self query_in (Some m) E N H (E / H) K Q t
                                n h q Hspec Hn Hh Hq' HK) as Hsum.
  rewrite (sum_map_const (get (t_attention t) [n; h; q; k])) in Hsum.
  - rewrite length_seq in Hsum.
    assert (HK0 : INR K <> 0) by (apply not_0_INR; lia).
    apply (Rmult_eq_reg_l (INR K)); [|exact HK0].
    rewrite Hsum. field. exact HK0.
  - intros j Hj. apply in_seq in Hj. apply Heq. lia.
Qed.

End RealRowTheorems.

Lemma attention_rows_are_distributions_witness :
  exists t,
    forward_trace attn_R k3_R k3_R x_R None = inr t /\
    forall n h q, n < 1 -> h < 2 -> q < 2 ->
      (forall k, k < 3 -> (0 <= get (t_attention t) [n; h; q; k] <= 1)%R) /\
      (0 < 3 ->
       sum_list (map (fun k => get (t_attention t) [n; h; q; k]) (seq 0 3)) = 1%R).
Proof.
  apply (attention_rows_are_distributions 4 2 params_R attn_R 1 3 2
                                          k3_R k3_R x_R None).
  - reflexivity.
  - lia.
  - lia.
  - reflexivity.
  - reflexivity.
  - reflexivity.
  - exact I.
Defined.

Lemma fully_masked_row_is_uniform_witness :
  exists t,
    forward_trace attn_R k3_R k3_R x_R (Some block_all3_R) = inr t /\
    forall k, k < 3 ->
      get (s_energy (t_scores t)) [0; 1; 1; k] = IZR (- 10 ^ 20) /\
      get (t_attention t) [0; 1; 1; k] = (/ INR 3)%R.
Proof.
  apply (fully_masked_row_is_uniform 4 2 params_R attn_R 1 3 2
                                     k3_R k3_R x_R block_all3_R 0 1 1).
  - reflexivity.
  - lia.
  - lia.
  - reflexivity.
  - reflexivity.
  - reflexivity.
  - reflexivity.
  - lia.
  - lia.
  - lia.
  - intros k Hk. destruct k as [|[|[|k]]]; [reflexivity | reflexivity | reflexivity | lia].
Defined.

(** * The layers around attention: shapes *)

Section LayerLemmas.
Context {A : Type} {SA : Scalar A} {FA : Floating A}.

Lemma add_tensors_same (a b : Tensor A) :
  shape a = shape b ->
  exists r, add_tensors a b = inr r /\ shape r = shape a.
Proof.
  intros Hs. unfold add_tensors. rewrite <- Hs, broadcast_shapes_refl.
  cbn [bind ret]. eexists. split; reflexivity.
Qed.

Lemma layer_norm_ok (l : LayerNorm A) (x : Tensor A) (e : nat)
      (lead : list nat) :
  shape (ln_weight l) = [e] -> shape x = lead ++ [e] ->
  exists y, layer_norm l x = inr y /\ shape y = shape x.
Proof.
  intros Hw Hx. unfold layer_norm. rewrite Hw, Hx, rev_app_distr. simpl.
  rewrite Nat.eqb_refl. eexists. split; reflexivity.
Qed.

Lemma layer_norm_inv (l : LayerNorm A) (x y : Tensor A) :
  layer_norm l x = inr y ->
  shape y = shape x /\
  exists e lead, shape (ln_weight l) = [e] /\ shape x = lead ++ [e].
Proof.
  unfold layer_norm.
  destruct (shape (ln_weight l)) as [|e [|? ?]]; try discriminate.
  destruct (rev (shape x)) as [|last_dim lead_rev] eqn:Hx; [discriminate|].
  destruct (Nat.eqb_spec last_dim e) as [->|]; [|discriminate].
  intros [= <-]. split; [reflexivity|].
  exists e, (rev lead_rev). split; [reflexivity|].
  rewrite <- (rev_involutive (shape x)), Hx. reflexivity.
Qed.

(** Dropout never fails and keeps the shape. *)
Lemma call_dropout_shape (d : Dropout) (x : Tensor A) (g : Rng) :
  exists y g', call_dropout d x g = inr (y, g') /\ shape y = shape x.
Proof.
  unfold call_dropout.
  destruct (negb (training d) || _ || _); [eauto|].
  destruct (QArith_base.Qeq_bool _ _); eexists; eexists; split; reflexivity.
Qed.

Lemma call_feed_forward_ok (ff : Linear A * Linear A) (x : Tensor A)
      (E F : nat) (lead : list nat) :
  shape (weight (fst ff)) = [F; E] -> shape (weight (snd ff)) = [E; F] ->
  shape x = lead ++ [E] ->
  exists y, TransformerBlock.call_feed_forward ff x = inr y /\
            shape y = lead ++ [E].
Proof.
  intros H1 H2 Hx. unfold TransformerBlock.call_feed_forward.
  destruct (linear_ok (fst ff) x F E lead H1 Hx) as (h & Hh & Hsh).
  rewrite Hh. cbn [bind].
  apply (linear_ok (snd ff) (relu h) E F lead H2). exact Hsh.
Qed.

Lemma forward_ok_configured (self : SelfAttention A) (E H D N K Q : nat)
      (values_in keys_in query_in : Tensor A) (mask : option (Tensor A)) :
  configured self E H D ->
  shape values_in = [N; K; E] -> shape keys_in = [N; K; E] ->
  shape query_in = [N; Q; E] -> mask_ok mask [N; H; Q; K] ->
  exists out,
    forward self values_in keys_in query_in mask = inr out /\
    shape out = [N; Q; E].
Proof.
  intros Hc Hv Hk Hq Hm.
  destruct (forward_trace_ok self E H D N K Q values_in keys_in query_in mask
                             Hc Hv Hk Hq Hm) as (t & Ht & Hspec).
  exists (t_out t). unfold forward. rewrite Ht. split; [reflexivity|].
  apply Hspec.
Qed.

End LayerLemmas.

Section BlockLemmas.
Context {A : Type} {SA : Scalar A} {FA : Floating A}.

Ltac run_lift H :=
  unfold mbind at 1; unfold lift at 1; rewrite H.

(** A well-formed call of a block returns a tensor of the shape of the
    query, whatever the generator draws. *)
Lemma block_forward_ok (b : TransformerBlock.t A) (E H D F N K Q : nat)
      (value key query : Tensor A) (mask : option (Tensor A)) (g : Rng) :
  block_configured b E H D F ->
  shape value = [N; K; E] -> shape key = [N; K; E] ->
  shape query = [N; Q; E] -> mask_ok mask [N; H; Q; K] ->
  exists out g',
    TransformerBlock.forward b value key query mask g = inr (out, g') /\
    shape out = [N; Q; E].
Proof.
  intros (Hc & Hn1 & Hn2 & Hf1 & Hf2) Hv Hk Hq Hm.
  unfold TransformerBlock.forward.
  destruct (forward_ok_configured _ E H D N K Q value key query mask
                                  Hc Hv Hk Hq Hm) as (att & Hatt & Hsatt).
  run_lift Hatt.
  destruct (add_tensors_same att query) as (s1 & Hs1 & Hss1); [congruence|].
  run_lift Hs1. rewrite Hsatt in Hss1.
  destruct (layer_norm_ok (TransformerBlock.norm1 b) s1 E [N; Q] Hn1 Hss1)
    as (x & Hx & Hsx).
  run_lift Hx. rewrite Hss1 in Hsx.
  destruct (call_dropout_shape (TransformerBlock.dropout b) x g)
    as (x' & g1 & Hx' & Hsx').
  unfold mbind at 1. rewrite Hx'. rewrite Hsx in Hsx'.
  destruct (call_feed_forward_ok (TransformerBlock.feed_forward b) x' E F
                                 [N; Q] Hf1 Hf2 Hsx') as (f & Hff & Hsf).
  run_lift Hff.
  destruct (add_tensors_same f x') as (s2 & Hs2 & Hss2);
    [rewrite Hsf, Hsx'; reflexivity|].
  run_lift Hs2. rewrite Hsf in Hss2.
  destruct (layer_norm_ok (TransformerBlock.norm2 b) s2 E [N; Q] Hn2 Hss2)
    as (y & Hy & Hsy).
  run_lift Hy. rewrite Hss2 in Hsy.
  destruct (call_dropout_shape (TransformerBlock.dropout b) y g1)
    as (y' & g2 & Hy' & Hsy').
  exists y', g2. split; [exact Hy'|]. rewrite Hsy', Hsy. reflexivity.
Qed.

End BlockLemmas.

Section EmbeddingLemmas.
Context {A : Type} {SA : Scalar A} {FA : Floating A}.

Lemma in_bounds_indices (s ix : list nat) : in_bounds s ix -> In ix (indices s).
Proof.
  intros Hb. eapply nth_error_In. apply nth_error_indices. exact Hb.
Qed.

Lemma embedding_ok (e : Embedding A) (x : Tensor Z) (num dim : nat) :
  shape (emb_weight e) = [num; dim] -> tokens_in_range x num ->
  exists y, embedding e x = inr y /\ shape y = shape x ++ [dim].
Proof.
  intros Hw Hr. unfold embedding. rewrite Hw.
  replace (forallb _ (indices (shape x))) with true.
  - eexists. split; reflexivity.
  - symmetry. apply forallb_forall. intros ix Hin.
    apply in_indices in Hin. specialize (Hr ix Hin).
    apply andb_true_intro. split; [apply Z.leb_le|apply Z.ltb_lt]; lia.
Qed.

(** An index outside the table raises IndexError. *)
Lemma embedding_out_of_range (e : Embedding A) (x : Tensor Z) (num dim : nat)
      (ix : list nat) :
  shape (emb_weight e) = [num; dim] -> in_bounds (shape x) ix ->
  (get x ix < 0 \/ Z.of_nat num <= get x ix)%Z ->
  embedding e x = inl IndexError.
Proof.
  intros Hw Hb Hout. unfold embedding. rewrite Hw.
  destruct (forallb _ (indices (shape x))) eqn:Hall; [|reflexivity].
  exfalso. rewrite forallb_forall in Hall.
  specialize (Hall ix (in_bounds_indices _ _ Hb)).
  apply andb_prop in Hall. destruct Hall as [H1 H2].
  apply Z.leb_le in H1. apply Z.ltb_lt in H2. lia.
Qed.

(** [torch.arange(0, L).expand(N, L)] *)
Lemma positions_ok (N L : nat) :
  exists pos : Tensor Z,
    expand (arange L) [N; L] = inr pos /\
    shape pos = [N; L] /\
    forall n l, n < N -> l < L -> get pos [n; l] = Z.of_nat l.
Proof.
  unfold expand, arange. simpl. rewrite Nat.eqb_refl. simpl.
  eexists. split; [reflexivity|]. split; [reflexivity|].
  intros n l Hn Hl.
  rewrite get_build by (repeat constructor; assumption).
  unfold bindex. simpl. rewrite bcoord_lt by exact Hl.
  rewrite get_build by (repeat constructor; assumption). reflexivity.
Qed.

Lemma in_bounds2_inv (a b : nat) (ix : list nat) :
  in_bounds [a; b] ix -> exists i j, ix = [i; j] /\ i < a /\ j < b.
Proof.
  intros Hb.
  inversion Hb as [|i ? t1 ? Hi Hb1]; subst.
  inversion Hb1 as [|j ? t2 ? Hj Hb2]; subst.
  inversion Hb2; subst. eauto.
Qed.

Lemma positions_in_range (N L P : nat) (pos : Tensor Z) :
  shape pos = [N; L] ->
  (forall n l, n < N -> l < L -> get pos [n; l] = Z.of_nat l) ->
  L <= P -> tokens_in_range pos P.
Proof.
  intros Hs Hg HLP ix Hb. rewrite Hs in Hb.
  apply in_bounds2_inv in Hb. destruct Hb as (n & l & -> & Hn & Hl).
  rewrite Hg by assumption. lia.
Qed.

(** The embedding of the tokens plus the embedding of the positions. *)
Lemma embed_tokens_ok (we pe : Embedding A) (x : Tensor Z) (V P E N L : nat) :
  shape (emb_weight we) = [V; E] -> shape (emb_weight pe) = [P; E] ->
  shape x = [N; L] -> tokens_in_range x V -> L <= P ->
  exists pos words places summed,
    expand (arange L) [N; L] = inr pos /\
    embedding we x = inr words /\
    embedding pe pos = inr places /\
    add_tensors words places = inr summed /\
    shape summed = [N; L; E].
Proof.
  intros Hwe Hpe Hx Hr HLP.
  destruct (positions_ok N L) as (pos & Hpos & Hspos & Hgpos).
  destruct (embedding_ok we x V E Hwe Hr) as (words & Hwords & Hsw).
  destruct (embedding_ok pe pos P E Hpe
                         (positions_in_range N L P pos Hspos Hgpos HLP))
    as (places & Hplaces & Hsp).
  destruct (add_tensors_same words places) as (summed & Hsum & Hss).
  { rewrite Hsw, Hsp, Hx, Hspos. reflexivity. }
  exists pos, words, places, summed.
  repeat split; try assumption.
  rewrite Hss, Hsw, Hx. reflexivity.
Qed.

End EmbeddingLemmas.

Section EncoderLemmas.
Context {A : Type} {SA : Scalar A} {FA : Floating A}.

Lemma encoder_layers_ok (layers : list (TransformerBlock.t A))
      (E H D F N L : nat) (mask : option (Tensor A)) :
  Forall (fun b => block_configured b E H D F) layers ->
  mask_ok mask [N; H; L; L] ->
  forall (out : Tensor A) (g : Rng),
    shape out = [N; L; E] ->
    exists out' g',
      Encoder.run_layers layers out mask g = inr (out', g') /\
      shape out' = [N; L; E].
Proof.
  intros Hall Hm. induction Hall as [|b layers Hb Hall IH]; intros out g Hs.
  - exists out, g. split; [reflexivity|exact Hs].
  - cbn [Encoder.run_layers].
    destruct (block_forward_ok b E H D F N L L out out out mask g
                               Hb Hs Hs Hs Hm) as (o1 & g1 & Ho1 & Hso1).
    unfold mbind at 1. rewrite Ho1. apply IH. exact Hso1.
Qed.

Lemma encoder_forward_ok (e : Encoder.t A) (V P E H D F N L : nat)
      (x : Tensor Z) (mask : option (Tensor A)) (g : Rng) :
  encoder_configured e V P E H D F ->
  shape x = [N; L] -> tokens_in_range x V -> L <= P ->
  mask_ok mask [N; H; L; L] ->
  exists out g',
    Encoder.forward e x mask g = inr (out, g') /\ shape out = [N; L; E].
Proof.
  intros (Hwe & Hpe & Hall) Hx Hr HLP Hm.
  destruct (embed_tokens_ok _ _ x V P E N L Hwe Hpe Hx Hr HLP)
    as (pos & words & places & summed & Hpos & Hwords & Hplaces & Hsum & Hss).
  unfold Encoder.forward.
  unfold mbind at 1; unfold lift at 1.
  rewrite (shape_at_nth x 0 N) by (rewrite Hx; reflexivity).
  unfold mbind at 1; unfold lift at 1.
  rewrite (shape_at_nth x 1 L) by (rewrite Hx; reflexivity).
  unfold mbind at 1; unfold lift at 1. rewrite Hpos.
  unfold mbind at 1; unfold lift at 1. rewrite Hwords.
  unfold mbind at 1; unfold lift at 1. rewrite Hplaces.
  unfold mbind at 1; unfold lift at 1. rewrite Hsum.
  destruct (call_dropout_shape (Encoder.dropout e) summed g)
    as (o & g1 & Ho & Hso).
  unfold mbind at 1. rewrite Ho.
  apply (encoder_layers_ok _ E H D F N L mask Hall Hm).
  rewrite Hso. exact Hss.
Qed.

End EncoderLemmas.

Section DecoderLemmas.
Context {A : Type} {SA : Scalar A} {FA : Floating A}.

Lemma bdim_one_r (a : nat) : bdim a 1 = inr a.
Proof.
  unfold bdim. destruct (Nat.eqb_spec a 1) as [->|]; [reflexivity|].
  destruct (a =? 1); reflexivity.
Qed.

(** A mask of shape (N, 1, 1, L) broadcasts over heads and queries. *)
Lemma padding_mask_ok (N H Q L : nat) :
  broadcast_shapes [N; H; Q; L] [N; 1; 1; L] = inr [N; H; Q; L].
Proof.
  unfold broadcast_shapes. simpl rev. simpl bcast_rev.
  rewrite !bdim_refl, !bdim_one_r. reflexivity.
Qed.

Lemma decoder_block_forward_ok (b : DecoderBlock.t A)
      (E H D F N Ls Lt : nat) (x value key : Tensor A)
      (src_mask trg_mask : option (Tensor A)) (g : Rng) :
  decoder_block_configured b E H D F ->
  shape x = [N; Lt; E] -> shape value = [N; Ls; E] -> shape key = [N; Ls; E] ->
  mask_ok src_mask [N; H; Lt; Ls] -> mask_ok trg_mask [N; H; Lt; Lt] ->
  exists out g',
    DecoderBlock.forward b x value key src_mask trg_mask g = inr (out, g') /\
    shape out = [N; Lt; E].
Proof.
  intros (Hc & Hn & Hb) Hx Hv Hk Hsm Htm.
  unfold DecoderBlock.forward.
  destruct (forward_ok_configured _ E H D N Lt Lt x x x trg_mask
                                  Hc Hx Hx Hx Htm) as (att & Hatt & Hsatt).
  unfold mbind at 1; unfold lift at 1. rewrite Hatt.
  destruct (add_tensors_same att x) as (s1 & Hs1 & Hss1); [congruence|].
  unfold mbind at 1; unfold lift at 1. rewrite Hs1. rewrite Hsatt in Hss1.
  destruct (layer_norm_ok (DecoderBlock.norm b) s1 E [N; Lt] Hn Hss1)
    as (y & Hy & Hsy).
  unfold mbind at 1; unfold lift at 1. rewrite Hy. rewrite Hss1 in Hsy.
  destruct (call_dropout_shape (DecoderBlock.dropout b) y g)
    as (query & g1 & Hq & Hsq).
  unfold mbind at 1. rewrite Hq. rewrite Hsy in Hsq.
  apply (block_forward_ok _ E H D F N Ls Lt value key query src_mask g1
                          Hb Hv Hk Hsq Hsm).
Qed.

Lemma decoder_layers_ok (layers : list (DecoderBlock.t A))
      (E H D F N Ls Lt : nat) (enc_out : Tensor A)
      (src_mask trg_mask : option (Tensor A)) :
  Forall (fun b => decoder_block_configured b E H D F) layers ->
  shape enc_out = [N; Ls; E] ->
  mask_ok src_mask [N; H; Lt; Ls] -> mask_ok trg_mask [N; H; Lt; Lt] ->
  forall (x : Tensor A) (g : Rng),
    shape x = [N; Lt; E] ->
    exists out g',
      Decoder.run_layers layers x enc_out src_mask trg_mask g = inr (out, g') /\
      shape out = [N; Lt; E].
Proof.
  intros Hall He Hsm Htm.
  induction Hall as [|b layers Hb Hall IH]; intros x g Hx.
  - exists x, g. split; [reflexivity|exact Hx].
  - cbn [Decoder.run_layers].
    destruct (decoder_block_forward_ok b E H D F N Ls Lt x enc_out enc_out
                                       src_mask trg_mask g Hb Hx He He Hsm Htm)
      as (o1 & g1 & Ho1 & Hso1).
    unfold mbind at 1. rewrite Ho1. apply IH. exact Hso1.
Qed.

Lemma decoder_forward_ok (d : Decoder.t A) (V P E H D F N Ls Lt : nat)
      (x : Tensor Z) (enc_out : Tensor A)
      (src_mask trg_mask : option (Tensor A)) (g : Rng) :
  decoder_configured d V P E H D F ->
  shape x = [N; Lt] -> tokens_in_range x V -> Lt <= P ->
  shape enc_out = [N; Ls; E] ->
  mask_ok src_mask [N; H; Lt; Ls] -> mask_ok trg_mask [N; H; Lt; Lt] ->
  exists out g',
    Decoder.forward d x enc_out src_mask trg_mask g = inr (out, g') /\
    shape out = [N; Lt; V].
Proof.
  intros (Hwe & Hpe & Hall & Hfc) Hx Hr HLP He Hsm Htm.
  destruct (embed_tokens_ok _ _ x V P E N Lt Hwe Hpe Hx Hr HLP)
    as (pos & words & places & summed & Hpos & Hwords & Hplaces & Hsum & Hss).
  unfold Decoder.forward.
  unfold mbind at 1; unfold lift at 1.
  rewrite (shape_at_nth x 0 N) by (rewrite Hx; reflexivity).
  unfold mbind at 1; unfold lift at 1.
  rewrite (shape_at_nth x 1 Lt) by (rewrite Hx; reflexivity).
  unfold mbind at 1; unfold lift at 1. rewrite Hpos.
  unfold mbind at 1; unfold lift at 1. rewrite Hwords.
  unfold mbind at 1; unfold lift at 1. rewrite Hplaces.
  unfold mbind at 1; unfold lift at 1. rewrite Hsum.
  destruct (call_dropout_shape (Decoder.dropout d) summed g)
    as (x1 & g1 & Hx1 & Hsx1).
  unfold mbind at 1. rewrite Hx1. rewrite Hss in Hsx1.
  destruct (decoder_layers_ok _ E H D F N Ls Lt enc_out src_mask trg_mask
                              Hall He Hsm Htm x1 g1 Hsx1)
    as (x2 & g2 & Hx2 & Hsx2).
  unfold mbind at 1. rewrite Hx2.
  destruct (linear_ok (Decoder.fc_out d) x2 V E [N; Lt] Hfc Hsx2)
    as (out & Hout & Hsout).
  unfold lift. rewrite Hout. eauto.
Qed.

End DecoderLemmas.

Section TransformerLemmas.
Context {A : Type} {SA : Scalar A} {FA : Floating A}.

Lemma make_src_mask_ok (tr : Transformer.t A) (src : Tensor Z) (N L : nat) :
  shape src = [N; L] ->
  exists m,
    Transformer.make_src_mask tr src = inr m /\
    shape m = [N; 1; 1; L] /\
    forall n k, n < N -> k < L ->
      getb m [n; 0; 0; k]
      = negb (get src [n; k] =? Transformer.src_pad_idx tr)%Z.
Proof.
  intros Hs. unfold Transformer.make_src_mask, unsqueeze, tensor_ne.
  cbn [shape build]. rewrite Hs. simpl.
  eexists. split; [reflexivity|]. split; [reflexivity|].
  intros n k Hn Hk.
  transitivity (getb (build [N; L]
                        (fun ix => negb (get src ix
                                         =? Transformer.src_pad_idx tr)%Z))
                     [n; k]).
  - unfold getb, get_or, build. cbn [shape data ravel numel fold_right].
    f_equal. lia.
  - apply getb_build. repeat constructor; assumption.
Qed.

Lemma shape_as_scalars (m : Tensor bool) : shape (as_scalars (A := A) m) = shape m.
Proof. reflexivity. Qed.

(** A well-formed call of the model returns logits of shape
    (N, L_trg, trg_vocab_size), whatever the generator draws. *)
Lemma transformer_forward_ok (tr : Transformer.t A)
      (Vs Vt P E H D F N Ls Lt : nat) (src trg : Tensor Z) (g : Rng) :
  transformer_configured tr Vs Vt P E H D F ->
  shape src = [N; Ls] -> shape trg = [N; Lt] ->
  tokens_in_range src Vs -> tokens_in_range trg Vt ->
  Ls <= P -> Lt <= P ->
  exists out g',
    Transformer.forward tr src trg g = inr (out, g') /\
    shape out = [N; Lt; Vt].
Proof.
  intros (Henc & Hdec) Hsrc Htrg Hrs Hrt HLs HLt.
  destruct (make_src_mask_ok tr src N Ls Hsrc) as (sm & Hsm & Hssm & _).
  destruct (make_trg_mask_ok (A := A) trg N Lt Htrg) as (tm & Htm & Hstm & _).
  unfold Transformer.forward.
  unfold mbind at 1; unfold lift at 1. rewrite Hsm.
  unfold mbind at 1; unfold lift at 1. rewrite Htm.
  assert (Hm1 : mask_ok (Some (as_scalars (A := A) sm)) [N; H; Ls; Ls]).
  { simpl. rewrite Hssm. apply padding_mask_ok. }
  assert (Hm2 : mask_ok (Some (as_scalars (A := A) sm)) [N; H; Lt; Ls]).
  { simpl. rewrite Hssm. apply padding_mask_ok. }
  assert (Hm3 : mask_ok (Some tm) [N; H; Lt; Lt]).
  { simpl. rewrite Hstm. apply causal_mask_ok. }
  destruct (encoder_forward_ok _ Vs P E H D F N Ls src _ g
                               Henc Hsrc Hrs HLs Hm1) as (enc & g1 & Henc' & Hse).
  unfold mbind at 1. rewrite Henc'.
  apply (decoder_forward_ok _ Vt P E H D F N Ls Lt trg enc _ _ g1
                            Hdec Htrg Hrt HLt Hse Hm2 Hm3).
Qed.

End TransformerLemmas.

(** * Construction of the layers *)

Section InitLemmas.
Context {A : Type} {SA : Scalar A} {FA : Floating A}.

Lemma nn_LayerNorm_inv (e : Z) (l : LayerNorm A) :
  nn_LayerNorm e = inr l -> (0 <= e)%Z /\ shape (ln_weight l) = [Z.to_nat e].
Proof.
  unfold nn_LayerNorm. destruct (Z.ltb_spec e 0); [discriminate|].
  intros [= <-]. auto.
Qed.

Lemma nn_Embedding_inv (num dim : Z) (init : list nat -> A) (e : Embedding A) :
  nn_Embedding num dim init = inr e ->
  (0 <= num)%Z /\ (0 <= dim)%Z /\
  shape (emb_weight e) = [Z.to_nat num; Z.to_nat dim].
Proof.
  unfold nn_Embedding.
  destruct (Z.ltb_spec num 0); [discriminate|].
  destruct (Z.ltb_spec dim 0); [discriminate|].
  intros [= <-]. auto.
Qed.

Ltac init_facts HH :=
  repeat match goal with
         | H : SelfAttention_init _ _ _ = inr _ |- _ =>
             apply init_configured in H; [|exact HH]
         | H : nn_LayerNorm _ = inr _ |- _ => apply nn_LayerNorm_inv in H
         | H : nn_Linear _ _ _ _ = inr _ |- _ => apply nn_Linear_inv in H
         | H : nn_Embedding _ _ _ = inr _ |- _ => apply nn_Embedding_inv in H
         end.

Lemma block_init_configured (E H fe : Z) (p : QArith_base.Q)
      (ps : TransformerBlock.params A) (b : TransformerBlock.t A) :
  TransformerBlock.init E H p fe ps = inr b -> (0 < H)%Z ->
  block_configured b (Z.to_nat E) (Z.to_nat H) (Z.to_nat (E / H))
                   (Z.to_nat (fe * E)).
Proof.
  intros Hi HH. unfold TransformerBlock.init in Hi.
  repeat bind_inv Hi. injection Hi as <-.
  init_facts HH.
  unfold block_configured; simpl.
  intuition.
Qed.

Lemma comprehension_Forall {T : Type} (P : T -> Prop) (f : nat -> result T) :
  (forall i x, f i = inr x -> P x) ->
  forall n i l, comprehension f n i = inr l -> Forall P l /\ length l = n.
Proof.
  intros Hf n. induction n as [|n IH]; intros i l Hl; simpl in Hl.
  - injection Hl as <-. split; [constructor|reflexivity].
  - repeat bind_inv Hl. injection Hl as <-.
    destruct (IH _ _ E0) as [Hall Hlen].
    split; [constructor; eauto|simpl; congruence].
Qed.

Lemma encoder_init_configured (V E nl H fe P : Z) (p : QArith_base.Q)
      (ps : Encoder.params A) (e : Encoder.t A) :
  Encoder.init V E nl H fe p P ps = inr e -> (0 < H)%Z ->
  encoder_configured e (Z.to_nat V) (Z.to_nat P) (Z.to_nat E) (Z.to_nat H)
                     (Z.to_nat (E / H)) (Z.to_nat (fe * E)) /\
  length (Encoder.layers e) = Z.to_nat nl.
Proof.
  intros Hi HH. unfold Encoder.init in Hi.
  repeat bind_inv Hi. injection Hi as <-.
  init_facts HH.
  match goal with
  | Hc : comprehension _ _ _ = inr _ |- _ =>
      apply (comprehension_Forall
               (fun b => block_configured b (Z.to_nat E) (Z.to_nat H)
                                          (Z.to_nat (E / H))
                                          (Z.to_nat (fe * E)))) in Hc
  end.
  - unfold encoder_configured; simpl. intuition.
  - intros i b Hb. eapply block_init_configured; eauto.
Qed.

Lemma decoder_block_init_configured (E H fe : Z) (p : QArith_base.Q)
      (ps : DecoderBlock.params A) (b : DecoderBlock.t A) :
  DecoderBlock.init E H fe p ps = inr b -> (0 < H)%Z ->
  decoder_block_configured b (Z.to_nat E) (Z.to_nat H) (Z.to_nat (E / H))
                           (Z.to_nat (fe * E)).
Proof.
  intros Hi HH. unfold DecoderBlock.init in Hi.
  repeat bind_inv Hi. injection Hi as <-.
  init_facts HH.
  match goal with
  | Hb : TransformerBlock.init _ _ _ _ _ = inr _ |- _ =>
      apply block_init_configured in Hb; [|exact HH]
  end.
  unfold decoder_block_configured; simpl. intuition.
Qed.

Lemma decoder_init_configured (V E nl H fe P : Z) (p : QArith_base.Q)
      (ps : Decoder.params A) (d : Decoder.t A) :
  Decoder.init V E nl H fe p P ps = inr d -> (0 < H)%Z ->
  decoder_configured d (Z.to_nat V) (Z.to_nat P) (Z.to_nat E) (Z.to_nat H)
                     (Z.to_nat (E / H)) (Z.to_nat (fe * E)) /\
  length (Decoder.layers d) = Z.to_nat nl.
Proof.
  intros Hi HH. unfold Decoder.init in Hi.
  repeat bind_inv Hi. injection Hi as <-.
  init_facts HH.
  match goal with
  | Hc : comprehension _ _ _ = inr _ |- _ =>
      apply (comprehension_Forall
               (fun b => decoder_block_configured b (Z.to_nat E) (Z.to_nat H)
                                                  (Z.to_nat (E / H))
                                                  (Z.to_nat (fe * E)))) in Hc
  end.
  - unfold decoder_configured; simpl. intuition.
  - intros i b Hb. eapply decoder_block_init_configured; eauto.
Qed.

Lemma transformer_init_configured
      (Vs Vt sp tp E nl fe H P : Z) (p : QArith_base.Q)
      (ps : Transformer.params A) (tr : Transformer.t A) :
  Transformer.init Vs Vt sp tp E nl fe H p P ps = inr tr -> (0 < H)%Z ->
  transformer_configured tr (Z.to_nat Vs) (Z.to_nat Vt) (Z.to_nat P)
                         (Z.to_nat E) (Z.to_nat H) (Z.to_nat (E / H))
                         (Z.to_nat (fe * E)) /\
  Transformer.src_pad_idx tr = sp.
Proof.
  intros Hi HH. unfold Transformer.init in Hi.
  repeat bind_inv Hi. injection Hi as <-.
  match goal with
  | He : Encoder.init _ _ _ _ _ _ _ _ = inr _ |- _ =>
      apply encoder_init_configured in He; [|exact HH]
  end.
  match goal with
  | Hd : Decoder.init _ _ _ _ _ _ _ _ = inr _ |- _ =>
      apply decoder_init_configured in Hd; [|exact HH]
  end.
  unfold transformer_configured; simpl. intuition.
Qed.

End InitLemmas.

(** * The source padding mask *)

Section PaddingMask.
Context {A : Type} {SA : Scalar A} {FA : Floating A}.

(** X4.  For source tokens of shape (N, L), [make_src_mask] returns a
    mask of shape (N, 1, 1, L) that is true exactly at the tokens that
    differ from [src_pad_idx], and that broadcasts over every number of
    heads and of query positions; a tensor of rank 0 has no dimension
    to unsqueeze at and raises IndexError. *)
Theorem make_src_mask_marks_padding (tr : Transformer.t A) (src : Tensor Z) :
  (forall N L, shape src = [N; L] ->
     exists m,
       Transformer.make_src_mask tr src = inr m /\
       shape m = [N; 1; 1; L] /\
       (forall n k, n < N -> k < L ->
          getb m [n; 0; 0; k]
          = negb (get src [n; k] =? Transformer.src_pad_idx tr)%Z) /\
       (forall H Q, mask_ok (Some (as_scalars (A := A) m)) [N; H; Q; L])) /\
  (shape src = [] -> Transformer.make_src_mask tr src = inl IndexError).
Proof.
  split.
  - intros N L Hs.
    destruct (make_src_mask_ok tr src N L Hs) as (m & Hm & Hsm & Hg).
    exists m. repeat split; try assumption.
    intros H Q. simpl. rewrite Hsm. apply padding_mask_ok.
  - intros Hs. unfold Transformer.make_src_mask, unsqueeze, tensor_ne.
    cbn [shape build]. rewrite Hs. reflexivity.
Qed.

End PaddingMask.

Section PaddingScores.
Context {A : Type} {SA : Scalar A} {FA : Floating A}.

Lemma padding_bindex (N L n h q k : nat) :
  n < N -> k < L -> bindex [N; 1; 1; L] [n; h; q; k] = [n; 0; 0; k].
Proof.
  intros Hn Hk. unfold bindex. simpl.
  rewrite (bcoord_lt N n), (bcoord_lt L k) by lia. reflexivity.
Qed.

(** X5.  Attention under the source padding mask, as the encoder and
    the cross-attention of the decoder call it, for a dtype in which 1
    differs from 0: whatever the head and the query position, the score
    of a key position whose source token is [src_pad_idx] becomes the
    sentinel -1e20, and the score of every other key position is left
    as the einsum gave it. *)
Theorem padded_keys_get_sentinel
        (E H : nat) (p : Params A) (self : SelfAttention A) (N K Q : nat)
        (values_in keys_in query_in : Tensor A)
        (tr : Transformer.t A) (src : Tensor Z) (src_mask : Tensor bool) :
  seqb sone szero = false -> seqb szero szero = true ->
  SelfAttention_init (Z.of_nat E) (Z.of_nat H) p = inr self -> 0 < H ->
  shape values_in = [N; K; E] -> shape keys_in = [N; K; E] ->
  shape query_in = [N; Q; E] ->
  shape src = [N; K] -> Transformer.make_src_mask tr src = inr src_mask ->
  exists s,
    attention_scores self values_in keys_in query_in
                     (Some (as_scalars src_mask)) = inr s /\
    forall n h q k, n < N -> h < H -> q < Q -> k < K ->
      get (s_energy s) [n; h; q; k]
      = if (get src [n; k] =? Transformer.src_pad_idx tr)%Z
        then sconst (- 10 ^ 20)%Z
        else get (s_energy_raw s) [n; h; q; k].
Proof.
  intros H10 H00 Hi HH Hv Hk Hq Hsrc Hmk.
  apply init_configured in Hi; [|lia].
  destruct Hi as (Hc & _). rewrite !Nat2Z.id in Hc.
  destruct (make_src_mask_ok tr src N K Hsrc) as (m & Hm & Hsm & Hgm).
  rewrite Hm in Hmk. injection Hmk as <-.
  assert (Hok : mask_ok (Some (as_scalars (A := A) m)) [N; H; Q; K]).
  { simpl. rewrite Hsm. apply padding_mask_ok. }
  destruct (attention_scores_ok self E H _ N K K Q values_in keys_in query_in
                                (Some (as_scalars m)) Hc Hv Hk Hq Hok)
    as (s & Hs & Hspec).
  exists s. split; [exact Hs|].
  destruct Hspec as (_ & _ & _ & _ & _ & _ & _ & _ & Hem).
  intros n h q k Hn Hh Hq' Hk'.
  rewrite Hem by assumption. unfold masked_score.
  rewrite shape_as_scalars, Hsm, padding_bindex by assumption.
  unfold as_scalars at 1.
  rewrite get_build by (rewrite Hsm; apply in_bounds4; lia).
  rewrite Hgm by assumption.
  destruct (get src [n; k] =? Transformer.src_pad_idx tr)%Z;
    cbv beta iota delta [negb].
  - rewrite H00. reflexivity.
  - rewrite H10. reflexivity.
Qed.

End PaddingScores.

(** * The blocks and the encoder *)

Section StackTheorems.
Context {A : Type} {SA : Scalar A} {FA : Floating A}.

(** X6.  A block built by [TransformerBlock.__init__] with [H] > 0
    heads, called on values and keys of one length and a query of any
    length, all of embedding size [E], returns a tensor of the shape of
    the query, whatever the dropout draws. *)
Theorem block_output_shape
        (E H : nat) (fe : Z) (p : QArith_base.Q)
        (ps : TransformerBlock.params A) (b : TransformerBlock.t A)
        (N K Q : nat) (value key query : Tensor A) (mask : option (Tensor A))
        (g : Rng) :
  TransformerBlock.init (Z.of_nat E) (Z.of_nat H) p fe ps = inr b -> 0 < H ->
  shape value = [N; K; E] -> shape key = [N; K; E] ->
  shape query = [N; Q; E] -> mask_ok mask [N; H; Q; K] ->
  exists out g',
    TransformerBlock.forward b value key query mask g = inr (out, g') /\
    shape out = shape query.
Proof.
  intros Hi HH Hv Hk Hq Hm.
  apply block_init_configured in Hi; [|lia]. rewrite !Nat2Z.id in Hi.
  destruct (block_forward_ok b E H _ _ N K Q value key query mask g
                             Hi Hv Hk Hq Hm) as (out & g' & Ho & Hs).
  exists out, g'. split; [exact Ho|congruence].
Qed.

(** X7.  An encoder built by [Encoder.__init__] with [H] > 0 heads and
    any number of layers, called on tokens of shape (N, L) that are all
    below the vocabulary size, with L at most [max_length], returns a
    tensor of shape (N, L, E), whatever the dropout draws. *)
Theorem encoder_output_shape
        (V E H P : nat) (nl fe : Z) (p : QArith_base.Q)
        (ps : Encoder.params A) (e : Encoder.t A)
        (N L : nat) (x : Tensor Z) (mask : option (Tensor A)) (g : Rng) :
  Encoder.init (Z.of_nat V) (Z.of_nat E) nl (Z.of_nat H) fe p (Z.of_nat P) ps
  = inr e -> 0 < H ->
  shape x = [N; L] -> tokens_in_range x V -> L <= P ->
  mask_ok mask [N; H; L; L] ->
  exists out g',
    Encoder.forward e x mask g = inr (out, g') /\ shape out = [N; L; E].
Proof.
  intros Hi HH Hx Hr HLP Hm.
  apply encoder_init_configured in Hi; [|lia].
  destruct Hi as (Hc & _). rewrite !Nat2Z.id in Hc.
  eapply encoder_forward_ok; eauto.
Qed.

Lemma embedding_cases (e : Embedding A) (x : Tensor Z) (num dim : nat) :
  shape (emb_weight e) = [num; dim] ->
  embedding e x = inl IndexError \/ exists y, embedding e x = inr y.
Proof.
  intros Hw. unfold embedding. rewrite Hw.
  destruct (forallb _ _); [right; eexists; reflexivity|left; reflexivity].
Qed.

(** X8.  The encoder has [max_length] positions: on a batch that is not
    empty and whose sequences are longer than [max_length], the
    position lookup raises IndexError, whatever the tokens, the mask
    and the number of layers are. *)
Theorem encoder_rejects_long_sequences
        (V E H P : nat) (nl fe : Z) (p : QArith_base.Q)
        (ps : Encoder.params A) (e : Encoder.t A)
        (N L : nat) (x : Tensor Z) (mask : option (Tensor A)) (g : Rng) :
  Encoder.init (Z.of_nat V) (Z.of_nat E) nl (Z.of_nat H) fe p (Z.of_nat P) ps
  = inr e -> 0 < H ->
  shape x = [N; L] -> 0 < N -> P < L ->
  Encoder.forward e x mask g = inl IndexError.
Proof.
  intros Hi HH Hx HN HPL.
  apply encoder_init_configured in Hi; [|lia].
  destruct Hi as ((Hwe & Hpe & _) & _). rewrite !Nat2Z.id in Hwe, Hpe.
  destruct (positions_ok N L) as (pos & Hpos & Hspos & Hgpos).
  unfold Encoder.forward.
  unfold mbind at 1; unfold lift at 1.
  rewrite (shape_at_nth x 0 N) by (rewrite Hx; reflexivity).
  unfold mbind at 1; unfold lift at 1.
  rewrite (shape_at_nth x 1 L) by (rewrite Hx; reflexivity).
  unfold mbind at 1; unfold lift at 1. rewrite Hpos.
  unfold mbind at 1; unfold lift at 1.
  destruct (embedding_cases (Encoder.word_embedding e) x V E Hwe)
    as [Hw|[words Hw]]; rewrite Hw; [reflexivity|].
  unfold mbind at 1; unfold lift at 1.
  rewrite (embedding_out_of_range (Encoder.position_embedding e) pos P E [0; P]);
    [reflexivity|exact Hpe| |].
  - rewrite Hspos. repeat constructor; lia.
  - rewrite Hgpos by lia. right. lia.
Qed.

(** X9.  A token that is negative or not below the vocabulary size
    makes the word lookup of the encoder raise IndexError. *)
Theorem encoder_rejects_unknown_tokens
        (V E H P : nat) (nl fe : Z) (p : QArith_base.Q)
        (ps : Encoder.params A) (e : Encoder.t A)
        (N L n l : nat) (x : Tensor Z) (mask : option (Tensor A)) (g : Rng) :
  Encoder.init (Z.of_nat V) (Z.of_nat E) nl (Z.of_nat H) fe p (Z.of_nat P) ps
  = inr e -> 0 < H ->
  shape x = [N; L] -> n < N -> l < L ->
  (get x [n; l] < 0 \/ Z.of_nat V <= get x [n; l])%Z ->
  Encoder.forward e x mask g = inl IndexError.
Proof.
  intros Hi HH Hx Hn Hl Hout.
  apply encoder_init_configured in Hi; [|lia].
  destruct Hi as ((Hwe & _ & _) & _). rewrite !Nat2Z.id in Hwe.
  destruct (positions_ok N L) as (pos & Hpos & _).
  unfold Encoder.forward.
  unfold mbind at 1; unfold lift at 1.
  rewrite (shape_at_nth x 0 N) by (rewrite Hx; reflexivity).
  unfold mbind at 1; unfold lift at 1.
  rewrite (shape_at_nth x 1 L) by (rewrite Hx; reflexivity).
  unfold mbind at 1; unfold lift at 1. rewrite Hpos.
  unfold mbind at 1; unfold lift at 1.
  rewrite (embedding_out_of_range (Encoder.word_embedding e) x V E [n; l]);
    [reflexivity|exact Hwe| |exact Hout].
  rewrite Hx. repeat constructor; assumption.
Qed.

End StackTheorems.

(** * The decoder and the whole model *)

Section ModelTheorems.
Context {A : Type} {SA : Scalar A} {FA : Floating A}.

(** X10.  A decoder block built by [DecoderBlock.__init__] with [H] > 0
    heads: causal self-attention on the target activations of length
    [Lt] followed by cross-attention to encoder output of any length
    [Ls] returns a tensor of the shape of the target activations. *)
Theorem decoder_block_output_shape
        (E H : nat) (fe : Z) (p : QArith_base.Q)
        (ps : DecoderBlock.params A) (b : DecoderBlock.t A)
        (N Ls Lt : nat) (x value key : Tensor A)
        (src_mask trg_mask : option (Tensor A)) (g : Rng) :
  DecoderBlock.init (Z.of_nat E) (Z.of_nat H) fe p ps = inr b -> 0 < H ->
  shape x = [N; Lt; E] -> shape value = [N; Ls; E] -> shape key = [N; Ls; E] ->
  mask_ok src_mask [N; H; Lt; Ls] -> mask_ok trg_mask [N; H; Lt; Lt] ->
  exists out g',
    DecoderBlock.forward b x value key src_mask trg_mask g = inr (out, g') /\
    shape out = shape x.
Proof.
  intros Hi HH Hx Hv Hk Hsm Htm.
  apply decoder_block_init_configured in Hi; [|lia]. rewrite !Nat2Z.id in Hi.
  destruct (decoder_block_forward_ok b E H _ _ N Ls Lt x value key src_mask
                                     trg_mask g Hi Hx Hv Hk Hsm Htm)
    as (out & g' & Ho & Hs).
  exists out, g'. split; [exact Ho|congruence].
Qed.

(** X11.  The whole model.  Built by [Transformer.__init__] with
    [H] > 0 heads and called on source tokens of shape (N, Ls) and
    target tokens of shape (N, Lt), all below their vocabulary sizes,
    with Ls and Lt at most [max_length], [forward] returns logits of
    shape (N, Lt, trg_vocab_size), whatever the dropout draws. *)
Theorem transformer_logits_shape
        (Vs Vt E H P : nat) (sp tp nl fe : Z) (p : QArith_base.Q)
        (ps : Transformer.params A) (tr : Transformer.t A)
        (N Ls Lt : nat) (src trg : Tensor Z) (g : Rng) :
  Transformer.init (Z.of_nat Vs) (Z.of_nat Vt) sp tp (Z.of_nat E) nl fe
                   (Z.of_nat H) p (Z.of_nat P) ps = inr tr -> 0 < H ->
  shape src = [N; Ls] -> shape trg = [N; Lt] ->
  tokens_in_range src Vs -> tokens_in_range trg Vt ->
  Ls <= P -> Lt <= P ->
  exists out g',
    Transformer.forward tr src trg g = inr (out, g') /\
    shape out = [N; Lt; Vt].
Proof.
  intros Hi HH Hsrc Htrg Hrs Hrt HLs HLt.
  apply transformer_init_configured in Hi; [|lia].
  destruct Hi as (Hc & _). rewrite !Nat2Z.id in Hc.
  eapply transformer_forward_ok; eauto.
Qed.

Lemma nn_Embedding_ok (num dim : Z) (init : list nat -> A) :
  (0 <= num)%Z -> (0 <= dim)%Z -> exists e, nn_Embedding num dim init = inr e.
Proof.
  intros Hn Hd. unfold nn_Embedding.
  destruct (Z.ltb_spec num 0); [lia|].
  destruct (Z.ltb_spec dim 0); [lia|]. eexists. reflexivity.
Qed.

Lemma nn_Linear_ok (i o : Z) (b : bool) (p : Init A) :
  (0 <= i)%Z -> (0 <= o)%Z -> exists l, nn_Linear i o b p = inr l.
Proof.
  intros Hi Ho. unfold nn_Linear.
  destruct (Z.ltb_spec i 0); [lia|].
  destruct (Z.ltb_spec o 0); [lia|]. eexists. reflexivity.
Qed.

(** X12.  The divisibility of [embed_size] by [heads] is asserted by the
    attention layers only.  With sizes that are not negative and a
    dropout rate in [0, 1]: a model with no layer (num_layers <= 0) is
    built whatever [heads] is, and a model with at least one layer whose
    [embed_size] is not divisible by [heads] (not 0) fails with the
    assertion error. *)
Theorem divisibility_is_checked_by_layers
        (Vs Vt sp tp E nl fe H P : Z) (p : QArith_base.Q)
        (ps : Transformer.params A) :
  (0 <= Vs)%Z -> (0 <= Vt)%Z -> (0 <= E)%Z -> (0 <= P)%Z ->
  nn_Dropout p = inr (mkDropout p true) ->
  ((nl <= 0)%Z ->
   exists tr,
     Transformer.init Vs Vt sp tp E nl fe H p P ps = inr tr /\
     Encoder.layers (Transformer.encoder tr) = [] /\
     Decoder.layers (Transformer.decoder tr) = []) /\
  ((0 < nl)%Z -> H <> 0%Z -> ~ (H | E)%Z ->
   Transformer.init Vs Vt sp tp E nl fe H p P ps
   = inl (AssertionError "Embed size needs to be div by heads")).
Proof.
  intros HVs HVt HE HP Hp.
  destruct (nn_Embedding_ok Vs E (Encoder.word_init (Transformer.encoder_init ps))
                            HVs HE) as (we & Hwe).
  destruct (nn_Embedding_ok P E
              (Encoder.position_init (Transformer.encoder_init ps)) HP HE)
    as (pe & Hpe).
  split.
  - intros Hnl.
    destruct (nn_Embedding_ok Vt E
                (Decoder.word_init (Transformer.decoder_init ps)) HVt HE)
      as (wd & Hwd).
    destruct (nn_Embedding_ok P E
                (Decoder.position_init (Transformer.decoder_init ps)) HP HE)
      as (pd & Hpd).
    destruct (nn_Linear_ok E Vt true
                (Decoder.fc_out_init (Transformer.decoder_init ps)) HE HVt)
      as (fc & Hfc).
    unfold Transformer.init, Encoder.init, Decoder.init.
    rewrite Hwe, Hpe, Hwd, Hpd, Hfc, Hp.
    replace (Z.to_nat nl) with 0 by lia.
    cbn [bind ret comprehension]. eexists. repeat split.
  - intros Hnl HH Hnd.
    unfold Transformer.init, Encoder.init.
    rewrite Hwe, Hpe. cbn [bind].
    destruct (Z.to_nat nl) as [|n] eqn:Hn; [lia|].
    cbn [comprehension].
    unfold TransformerBlock.init, SelfAttention_init, floordiv.
    destruct (Z.eqb_spec H 0); [contradiction|]. cbn [bind ret].
    destruct (Z.eqb_spec (E / H * H) E) as [Hdiv|Hdiv].
    + exfalso. apply Hnd. exists (E / H)%Z. lia.
    + reflexivity.
Qed.

End ModelTheorems.

(** * The stack at concrete inputs *)

Lemma src_tokens_in_range : tokens_in_range src_tokens 10.
Proof.
  intros ix Hb. apply in_bounds2_inv in Hb.
  destruct Hb as (n & l & -> & Hn & Hl).
  destruct n as [|n]; [|lia].
  destruct l as [|[|[|[|l]]]]; try lia; cbn; lia.
Qed.

Lemma trg_tokens_in_range : tokens_in_range trg_tokens 10.
Proof.
  intros ix Hb. apply in_bounds2_inv in Hb.
  destruct Hb as (n & l & -> & Hn & Hl).
  destruct n as [|n]; [|lia].
  destruct l as [|[|[|l]]]; try lia; cbn; lia.
Qed.

Lemma make_src_mask_marks_padding_witness :
  exists tr,
    tiny_R = inr tr /\
    exists m,
      Transformer.make_src_mask tr src_tokens = inr m /\
      shape m = [1; 1; 1; 4] /\
      (forall n k, n < 1 -> k < 4 ->
         getb m [n; 0; 0; k]
         = negb (get src_tokens [n; k] =? Transformer.src_pad_idx tr)%Z) /\
      (forall H Q, mask_ok (Some (as_scalars (A := R) m)) [1; H; Q; 4]).
Proof.
  eexists. split; [reflexivity|].
  apply (proj1 (make_src_mask_marks_padding _ src_tokens) 1 4). reflexivity.
Defined.

Lemma padded_keys_get_sentinel_witness :
  exists tr,
    tiny_R = inr tr /\
    exists m,
      Transformer.make_src_mask tr src_tokens = inr m /\
      exists s,
        attention_scores attn_R kv4_R kv4_R x_R (Some (as_scalars m)) = inr s /\
        forall n h q k, n < 1 -> h < 2 -> q < 2 -> k < 4 ->
          get (s_energy s) [n; h; q; k]
          = if (get src_tokens [n; k] =? Transformer.src_pad_idx tr)%Z
            then sconst (- 10 ^ 20)%Z
            else get (s_energy_raw s) [n; h; q; k].
Proof.
  eexists. split; [reflexivity|].
  eexists. split; [reflexivity|].
  apply (padded_keys_get_sentinel 4 2 params_R attn_R 1 4 2 kv4_R kv4_R x_R
                                  _ src_tokens).
  - apply Reqb_neq. cbn. lra.
  - apply Reqb_refl.
  - reflexivity.
  - lia.
  - reflexivity.
  - reflexivity.
  - reflexivity.
  - reflexivity.
  - reflexivity.
Defined.

Lemma block_output_shape_witness :
  exists b,
    TransformerBlock.init 4 2 no_dropout 2 tiny_block_params = inr b /\
    exists out g',
      TransformerBlock.forward b k3_R k3_R x_R None keep_all = inr (out, g') /\
      shape out = shape x_R.
Proof.
  eexists. split; [reflexivity|].
  apply (block_output_shape 4 2 2 no_dropout tiny_block_params _ 1 3 2).
  - reflexivity.
  - lia.
  - reflexivity.
  - reflexivity.
  - reflexivity.
  - exact I.
Defined.

Lemma encoder_output_shape_witness :
  exists e,
    Encoder.init 10 4 2 2 2 no_dropout 5 (Transformer.encoder_init tiny_params)
    = inr e /\
    exists out g',
      Encoder.forward e src_tokens None keep_all = inr (out, g') /\
      shape out = [1; 4; 4].
Proof.
  eexists. split; [reflexivity|].
  apply (encoder_output_shape 10 4 2 5 2 2 no_dropout
                              (Transformer.encoder_init tiny_params) _ 1 4).
  - reflexivity.
  - lia.
  - reflexivity.
  - exact src_tokens_in_range.
  - lia.
  - exact I.
Defined.

Lemma encoder_rejects_long_sequences_witness :
  exists e,
    Encoder.init 10 4 2 2 2 no_dropout 5 (Transformer.encoder_init tiny_params)
    = inr e /\
    Encoder.forward e long_tokens None keep_all = inl IndexError.
Proof.
  eexists. split; [reflexivity|].
  apply (encoder_rejects_long_sequences
           10 4 2 5 2 2 no_dropout (Transformer.encoder_init tiny_params) _ 1 6).
  - reflexivity.
  - lia.
  - reflexivity.
  - lia.
  - lia.
Defined.

Lemma encoder_rejects_unknown_tokens_witness :
  exists e,
    Encoder.init 10 4 2 2 2 no_dropout 5 (Transformer.encoder_init tiny_params)
    = inr e /\
    Encoder.forward e bad_tokens None keep_all = inl IndexError.
Proof.
  eexists. split; [reflexivity|].
  apply (encoder_rejects_unknown_tokens
           10 4 2 5 2 2 no_dropout (Transformer.encoder_init tiny_params)
           _ 1 2 0 1).
  - reflexivity.
  - lia.
  - reflexivity.
  - lia.
  - lia.
  - right. cbn. lia.
Defined.

Lemma decoder_block_output_shape_witness :
  exists b,
    DecoderBlock.init 4 2 2 no_dropout
                      (DecoderBlock.mk_params params_R tiny_block_params)
    = inr b /\
    exists out g',
      DecoderBlock.forward b x_R k3_R k3_R None (Some causal2_R) keep_all
      = inr (out, g') /\
      shape out = shape x_R.
Proof.
  eexists. split; [reflexivity|].
  apply (decoder_block_output_shape
           4 2 2 no_dropout (DecoderBlock.mk_params params_R tiny_block_params)
           _ 1 3 2).
  - reflexivity.
  - lia.
  - reflexivity.
  - reflexivity.
  - reflexivity.
  - exact I.
  - reflexivity.
Defined.

Lemma transformer_logits_shape_witness :
  exists tr,
    tiny_R = inr tr /\
    exists out g',
      Transformer.forward tr src_tokens trg_tokens keep_all = inr (out, g') /\
      shape out = [1; 3; 10].
Proof.
  eexists. split; [reflexivity|].
  apply (transformer_logits_shape 10 10 4 2 5 0 0 2 2 no_dropout tiny_params
                                  _ 1 4 3).
  - reflexivity.
  - lia.
  - reflexivity.
  - reflexivity.
  - exact src_tokens_in_range.
  - exact trg_tokens_in_range.
  - lia.
  - lia.
Defined.

Lemma divisibility_is_checked_by_layers_witness :
  (exists tr,
     Transformer.init 10 10 0 0 100 0 4 7 no_dropout 5 tiny_params = inr tr /\
     Encoder.layers (Transformer.encoder tr) = [] /\
     Decoder.layers (Transformer.decoder tr) = []) /\
  Transformer.init 10 10 0 0 100 6 4 7 no_dropout 5 tiny_params
  = inl (AssertionError "Embed size needs to be div by heads").
Proof.
  split.
  - apply (proj1 (divisibility_is_checked_by_layers
                    10 10 0 0 100 0 4 7 5 no_dropout tiny_params
                    ltac:(lia) ltac:(lia) ltac:(lia) ltac:(lia) eq_refl)).
    lia.
  - apply (proj2 (divisibility_is_checked_by_layers
                    10 10 0 0 100 6 4 7 5 no_dropout tiny_params
                    ltac:(lia) ltac:(lia) ltac:(lia) ltac:(lia) eq_refl)).
    + lia.
    + lia.
    + intros [c Hc]. lia.
Defined.

(** * Dropout at rate 0 *)

Section Determinism.
Context {A : Type} {SA : Scalar A} {FA : Floating A}.

Lemma det_lift {T : Type} (r : result T) : deterministic (lift r).
Proof. exists r. reflexivity. Qed.

Lemma det_mret {T : Type} (x : T) : deterministic (mret x).
Proof. exists (inr x). reflexivity. Qed.

Lemma det_mbind {T U : Type} (m : M T) (k : T -> M U) :
  deterministic m -> (forall x, deterministic (k x)) ->
  deterministic (mbind m k).
Proof.
  intros [r Hr] Hk. destruct r as [e|x].
  - exists (inl e). intros g. unfold mbind. rewrite Hr. reflexivity.
  - destruct (Hk x) as [r' Hr']. exists r'. intros g.
    unfold mbind. rewrite Hr. simpl. apply Hr'.
Qed.

Lemma det_dropout (d : Dropout) (x : Tensor A) :
  zero_rate d -> deterministic (call_dropout d x).
Proof.
  intros Hz. exists (inr x). intros g. unfold call_dropout.
  unfold zero_rate in Hz. rewrite Hz, orb_true_r. reflexivity.
Qed.

Lemma det_block (b : TransformerBlock.t A) (value key query : Tensor A)
      (mask : option (Tensor A)) :
  block_quiet b -> deterministic (TransformerBlock.forward b value key query mask).
Proof.
  intros Hq. unfold TransformerBlock.forward.
  repeat (apply det_mbind; [try apply det_lift; try (apply det_dropout; exact Hq)
                           |intros ?]).
  apply det_dropout. exact Hq.
Qed.

Lemma det_encoder_layers (layers : list (TransformerBlock.t A))
      (mask : option (Tensor A)) :
  Forall block_quiet layers ->
  forall out, deterministic (Encoder.run_layers layers out mask).
Proof.
  induction 1 as [|b layers Hb Hall IH]; intros out; cbn [Encoder.run_layers].
  - apply det_mret.
  - apply det_mbind; [apply det_block; exact Hb|exact IH].
Qed.

Lemma det_decoder_block (b : DecoderBlock.t A) (x value key : Tensor A)
      (src_mask trg_mask : option (Tensor A)) :
  decoder_block_quiet b ->
  deterministic (DecoderBlock.forward b x value key src_mask trg_mask).
Proof.
  intros [Hd Hb]. unfold DecoderBlock.forward.
  do 4 (apply det_mbind; [try apply det_lift; try (apply det_dropout; exact Hd)
                         |intros ?]).
  apply det_block. exact Hb.
Qed.

Lemma det_decoder_layers (layers : list (DecoderBlock.t A))
      (enc_out : Tensor A) (src_mask trg_mask : option (Tensor A)) :
  Forall decoder_block_quiet layers ->
  forall x, deterministic (Decoder.run_layers layers x enc_out src_mask trg_mask).
Proof.
  induction 1 as [|b layers Hb Hall IH]; intros x; cbn [Decoder.run_layers].
  - apply det_mret.
  - apply det_mbind; [apply det_decoder_block; exact Hb|exact IH].
Qed.

Lemma nn_Dropout_rate (q : QArith_base.Q) (d : Dropout) :
  nn_Dropout q = inr d -> p d = q.
Proof.
  unfold nn_Dropout. destruct (_ && _); [|discriminate].
  intros [= <-]. reflexivity.
Qed.

Lemma block_init_quiet (E H fe : Z) (q : QArith_base.Q)
      (ps : TransformerBlock.params A) (b : TransformerBlock.t A) :
  TransformerBlock.init E H q fe ps = inr b ->
  QArith_base.Qeq_bool q (QArith_base.Qmake 0 1) = true -> block_quiet b.
Proof.
  intros Hi Hq. unfold TransformerBlock.init in Hi.
  repeat bind_inv Hi. injection Hi as <-.
  unfold block_quiet, zero_rate; simpl.
  match goal with
  | Hd : nn_Dropout _ = inr _ |- _ => rewrite (nn_Dropout_rate _ _ Hd)
  end. exact Hq.
Qed.

Lemma decoder_block_init_quiet (E H fe : Z) (q : QArith_base.Q)
      (ps : DecoderBlock.params A) (b : DecoderBlock.t A) :
  DecoderBlock.init E H fe q ps = inr b ->
  QArith_base.Qeq_bool q (QArith_base.Qmake 0 1) = true ->
  decoder_block_quiet b.
Proof.
  intros Hi Hq. unfold DecoderBlock.init in Hi.
  repeat bind_inv Hi. injection Hi as <-.
  unfold decoder_block_quiet, zero_rate; simpl. split.
  - match goal with
    | Hd : nn_Dropout _ = inr _ |- _ => rewrite (nn_Dropout_rate _ _ Hd)
    end. exact Hq.
  - match goal with
    | Hb : TransformerBlock.init _ _ _ _ _ = inr _ |- _ =>
        exact (block_init_quiet _ _ _ _ _ _ Hb Hq)
    end.
Qed.

Lemma det_transformer (tr : Transformer.t A) (src trg : Tensor Z) :
  zero_rate (Encoder.dropout (Transformer.encoder tr)) ->
  Forall block_quiet (Encoder.layers (Transformer.encoder tr)) ->
  zero_rate (Decoder.dropout (Transformer.decoder tr)) ->
  Forall decoder_block_quiet (Decoder.layers (Transformer.decoder tr)) ->
  deterministic (Transformer.forward tr src trg).
Proof.
  intros He Hel Hd Hdl.
  unfold Transformer.forward, Encoder.forward, Decoder.forward.
  repeat (apply det_mbind; [try apply det_lift|intros ?]);
    try apply det_lift;
    try (apply det_dropout; assumption);
    try (apply det_encoder_layers; assumption);
    try (apply det_decoder_layers; assumption).
Qed.

(** X13.  With the dropout rate 0 (the default of the constructor), the
    outcome of [Transformer.forward], a result or an error, is the same
    whatever the random generator would draw, and the generator is left
    as it was: two calls on the same tokens agree. *)
Theorem no_dropout_is_deterministic
        (Vs Vt sp tp E nl fe H P : Z) (q : QArith_base.Q)
        (ps : Transformer.params A) (tr : Transformer.t A)
        (src trg : Tensor Z) :
  Transformer.init Vs Vt sp tp E nl fe H q P ps = inr tr ->
  QArith_base.Qeq_bool q (QArith_base.Qmake 0 1) = true ->
  exists r : result (Tensor A),
    forall g, Transformer.forward tr src trg g = lift r g.
Proof.
  intros Hi Hq. unfold Transformer.init in Hi.
  destruct (Encoder.init Vs E nl H fe q P (Transformer.encoder_init ps))
    as [|enc] eqn:Henc; cbn [bind] in Hi; [discriminate|].
  destruct (Decoder.init Vt E nl H fe q P (Transformer.decoder_init ps))
    as [|dec] eqn:Hdec; cbn [bind] in Hi; [discriminate|].
  injection Hi as <-.
  apply det_transformer; cbn [Transformer.encoder Transformer.decoder].
  - unfold Encoder.init in Henc. repeat bind_inv Henc. injection Henc as <-.
    unfold zero_rate; simpl.
    match goal with
    | Hd : nn_Dropout _ = inr _ |- _ => rewrite (nn_Dropout_rate _ _ Hd)
    end. exact Hq.
  - unfold Encoder.init in Henc. repeat bind_inv Henc. injection Henc as <-.
    simpl.
    match goal with
    | Hc : comprehension _ _ _ = inr _ |- _ =>
        apply (comprehension_Forall block_quiet) in Hc; [apply Hc|]
    end.
    intros i b Hb. exact (block_init_quiet _ _ _ _ _ _ Hb Hq).
  - unfold Decoder.init in Hdec. repeat bind_inv Hdec. injection Hdec as <-.
    unfold zero_rate; simpl.
    match goal with
    | Hd : nn_Dropout _ = inr _ |- _ => rewrite (nn_Dropout_rate _ _ Hd)
    end. exact Hq.
  - unfold Decoder.init in Hdec. repeat bind_inv Hdec. injection Hdec as <-.
    simpl.
    match goal with
    | Hc : comprehension _ _ _ = inr _ |- _ =>
        apply (comprehension_Forall decoder_block_quiet) in Hc; [apply Hc|]
    end.
    intros i b Hb. exact (decoder_block_init_quiet _ _ _ _ _ _ Hb Hq).
Qed.

End Determinism.

Lemma no_dropout_is_deterministic_witness :
  exists tr,
    tiny_R = inr tr /\
    exists r : result (Tensor R),
      forall g, Transformer.forward tr src_tokens trg_tokens g = lift r g.
Proof.
  eexists. split; [reflexivity|].
  apply (no_dropout_is_deterministic 10 10 0 0 4 2 2 2 5 no_dropout tiny_params).
  - reflexivity.
  - reflexivity.
Defined.

(** * Construction of the model and the divisibility check *)

Section AssertionFree.
Context {A : Type} {SA : Scalar A} {FA : Floating A}.

Lemma bind_no_assertion {T U : Type} (m : result T) (k : T -> result U) :
  (forall msg, m <> inl (AssertionError msg)) ->
  (forall x, m = inr x -> forall msg, k x <> inl (AssertionError msg)) ->
  forall msg, bind m k <> inl (AssertionError msg).
Proof.
  intros Hm Hk msg. destruct m as [e|x]; cbn [bind].
  - intros Heq. injection Heq as ->. exact (Hm msg eq_refl).
  - apply (Hk x eq_refl).
Qed.

Lemma ret_no_assertion {T : Type} (x : T) :
  forall msg, ret x <> inl (AssertionError msg).
Proof. intros msg. discriminate. Qed.

Lemma nn_Linear_no_assertion (i o : Z) (b : bool) (p : Init A) :
  forall msg, nn_Linear i o b p <> inl (AssertionError msg).
Proof.
  intros msg. unfold nn_Linear.
  destruct ((i <? 0)%Z || (o <? 0)%Z); discriminate.
Qed.

Lemma nn_LayerNorm_no_assertion (n : Z) :
  forall msg, nn_LayerNorm (A := A) n <> inl (AssertionError msg).
Proof.
  intros msg. unfold nn_LayerNorm. destruct (n <? 0)%Z; discriminate.
Qed.

Lemma nn_Embedding_no_assertion (n d : Z) (init : list nat -> A) :
  forall msg, nn_Embedding n d init <> inl (AssertionError msg).
Proof.
  intros msg. unfold nn_Embedding.
  destruct ((n <? 0)%Z || (d <? 0)%Z); discriminate.
Qed.

Lemma nn_Dropout_no_assertion (p : QArith_base.Q) :
  forall msg, nn_Dropout p <> inl (AssertionError msg).
Proof.
  intros msg. unfold nn_Dropout.
  destruct (QArith_base.Qle_bool (QArith_base.Qmake 0 1) p
            && QArith_base.Qle_bool p (QArith_base.Qmake 1 1)); discriminate.
Qed.

Lemma comprehension_no_assertion {T : Type} (f : nat -> result T) (n i : nat) :
  (forall j msg, f j <> inl (AssertionError msg)) ->
  forall msg, comprehension f n i <> inl (AssertionError msg).
Proof.
  intros Hf. revert i. induction n as [|n IH]; intros i; cbn [comprehension].
  - apply ret_no_assertion.
  - apply bind_no_assertion; [apply Hf|]. intros x _.
    apply bind_no_assertion; [apply IH|]. intros xs _.
    apply ret_no_assertion.
Qed.

Lemma attention_init_no_assertion (E H : Z) (p : Params A) :
  (H | E)%Z -> forall msg, SelfAttention_init E H p <> inl (AssertionError msg).
Proof. exact (proj1 (proj2 (attention_init_divisibility E H p))). Qed.

Lemma attention_init_assertion (E H : Z) (p : Params A) :
  H <> 0%Z -> ~ (H | E)%Z ->
  SelfAttention_init E H p
  = inl (AssertionError "Embed size needs to be div by heads").
Proof.
  intros HH Hnd.
  destruct (proj1 (attention_init_divisibility E H p) Hnd) as (e & -> & He).
  rewrite (He HH). reflexivity.
Qed.

Ltac no_assertion :=
  repeat (first
    [ apply ret_no_assertion
    | apply nn_Linear_no_assertion
    | apply nn_LayerNorm_no_assertion
    | apply nn_Embedding_no_assertion
    | apply nn_Dropout_no_assertion
    | apply bind_no_assertion; [|intros ? _] ]).

Lemma block_init_no_assertion (E H fe : Z) (p : QArith_base.Q)
      (ps : TransformerBlock.params A) :
  (H | E)%Z ->
  forall msg, TransformerBlock.init E H p fe ps <> inl (AssertionError msg).
Proof.
  intros Hd. unfold TransformerBlock.init.
  apply bind_no_assertion; [apply attention_init_no_assertion; exact Hd|].
  intros ? _. no_assertion.
Qed.

Lemma decoder_block_init_no_assertion (E H fe : Z) (p : QArith_base.Q)
      (ps : DecoderBlock.params A) :
  (H | E)%Z ->
  forall msg, DecoderBlock.init E H fe p ps <> inl (AssertionError msg).
Proof.
  intros Hd. unfold DecoderBlock.init.
  apply bind_no_assertion; [apply attention_init_no_assertion; exact Hd|].
  intros ? _.
  apply bind_no_assertion; [apply nn_LayerNorm_no_assertion|]. intros ? _.
  apply bind_no_assertion; [apply block_init_no_assertion; exact Hd|].
  intros ? _. no_assertion.
Qed.

Lemma encoder_init_no_assertion (Vs E nl H fe : Z) (p : QArith_base.Q) (P : Z)
      (ps : Encoder.params A) :
  (H | E)%Z ->
  forall msg, Encoder.init Vs E nl H fe p P ps <> inl (AssertionError msg).
Proof.
  intros Hd. unfold Encoder.init.
  apply bind_no_assertion; [apply nn_Embedding_no_assertion|]. intros ? _.
  apply bind_no_assertion; [apply nn_Embedding_no_assertion|]. intros ? _.
  apply bind_no_assertion.
  - apply comprehension_no_assertion. intros j.
    apply block_init_no_assertion. exact Hd.
  - intros ? _. no_assertion.
Qed.

Lemma decoder_init_no_assertion (Vt E nl H fe : Z) (p : QArith_base.Q) (P : Z)
      (ps : Decoder.params A) :
  (H | E)%Z ->
  forall msg, Decoder.init Vt E nl H fe p P ps <> inl (AssertionError msg).
Proof.
  intros Hd. unfold Decoder.init.
  apply bind_no_assertion; [apply nn_Embedding_no_assertion|]. intros ? _.
  apply bind_no_assertion; [apply nn_Embedding_no_assertion|]. intros ? _.
  apply bind_no_assertion.
  - apply comprehension_no_assertion. intros j.
    apply decoder_block_init_no_assertion. exact Hd.
  - intros ? _. no_assertion.
Qed.

Lemma encoder_init_assertion (Vs E nl H fe : Z) (p : QArith_base.Q) (P : Z)
      (ps : Encoder.params A) :
  (0 <= Vs)%Z -> (0 <= E)%Z -> (0 <= P)%Z -> (0 < nl)%Z ->
  H <> 0%Z -> ~ (H | E)%Z ->
  Encoder.init Vs E nl H fe p P ps
  = inl (AssertionError "Embed size needs to be div by heads").
Proof.
  intros HVs HE HP Hnl HH Hnd. unfold Encoder.init, nn_Embedding.
  destruct (Z.ltb_spec Vs 0); [lia|].
  destruct (Z.ltb_spec P 0); [lia|].
  destruct (Z.ltb_spec E 0); [lia|]. cbn [orb bind ret].
  destruct (Z.to_nat nl) as [|n] eqn:Hn; [lia|].
  cbn [comprehension]. unfold TransformerBlock.init.
  rewrite (attention_init_assertion E H _ HH Hnd). reflexivity.
Qed.

(** C8 (amended).  The divisibility of [embed_size] by [heads] is
    asserted when an attention layer is constructed.  For [heads] not 0
    and an [embed_size] that [heads] does not divide (for example 100
    and 7), [SelfAttention.__init__] fails with the assertion error
    "Embed size needs to be div by heads", and so does
    [Transformer.__init__] for every model with at least one layer whose
    source vocabulary size, [embed_size] and [max_length] are not
    negative: no module exists on which [forward] could be called.  When
    [heads] divides [embed_size], neither constructor raises an
    assertion error, whatever the other arguments are. *)
Theorem construction_divisibility_check
        (Vs Vt sp tp E nl fe H P : Z) (p : QArith_base.Q)
        (ps : Transformer.params A) (pa : Params A) :
  (H <> 0%Z -> ~ (H | E)%Z ->
   SelfAttention_init E H pa
   = inl (AssertionError "Embed size needs to be div by heads")) /\
  (H <> 0%Z -> ~ (H | E)%Z ->
   (0 < nl)%Z -> (0 <= Vs)%Z -> (0 <= E)%Z -> (0 <= P)%Z ->
   Transformer.init Vs Vt sp tp E nl fe H p P ps
   = inl (AssertionError "Embed size needs to be div by heads")) /\
  ((H | E)%Z ->
   forall msg,
     SelfAttention_init E H pa <> inl (AssertionError msg) /\
     Transformer.init Vs Vt sp tp E nl fe H p P ps <> inl (AssertionError msg)).
Proof.
  split; [|split].
  - apply attention_init_assertion.
  - intros HH Hnd Hnl HVs HE HP. unfold Transformer.init.
    rewrite (encoder_init_assertion Vs E nl H fe p P _ HVs HE HP Hnl HH Hnd).
    reflexivity.
  - intros Hd msg. split.
    + apply attention_init_no_assertion. exact Hd.
    + unfold Transformer.init.
      apply bind_no_assertion; [apply encoder_init_no_assertion; exact Hd|].
      intros ? _.
      apply bind_no_assertion; [apply decoder_init_no_assertion; exact Hd|].
      intros ? _. apply ret_no_assertion.
Qed.

End AssertionFree.

Lemma construction_divisibility_check_witness :
  SelfAttention_init 100 7 params_R
  = inl (AssertionError "Embed size needs to be div by heads") /\
  Transformer.init 10 10 0 0 100 6 4 7 no_dropout 5 tiny_params
  = inl (AssertionError "Embed size needs to be div by heads") /\
  (forall msg,
     SelfAttention_init 4 2 params_R <> inl (AssertionError msg) /\
     Transformer.init 10 10 0 0 4 2 2 2 no_dropout 5 tiny_params
     <> inl (AssertionError msg)).
Proof.
  assert (Hnd : ~ (7 | 100)%Z) by (intros [c Hc]; lia).
  assert (H7 : 7%Z <> 0%Z) by lia.
  split; [|split].
  - apply (proj1 (construction_divisibility_check
                    10 10 0 0 100 6 4 7 5 no_dropout tiny_params params_R));
      assumption.
  - apply (proj1 (proj2 (construction_divisibility_check
                           10 10 0 0 100 6 4 7 5 no_dropout tiny_params
                           params_R))); try assumption; lia.
  - apply (proj2 (proj2 (construction_divisibility_check
                           10 10 0 0 4 2 2 2 5 no_dropout tiny_params
                           params_R))).
    exists 2%Z. reflexivity.
Defined.

(** The example of the claim, in a model without layers: embed_size
    100 and heads 7, num_layers 0.  No attention layer is constructed
    and the model is built. *)
Lemma model_without_layers_skips_check :
  (100 mod 7)%Z = 2%Z /\
  exists tr,
    Transformer.init 10 10 0 0 100 0 4 7 no_dropout 5 tiny_params = inr tr /\
    Encoder.layers (Transformer.encoder tr) = [] /\
    Decoder.layers (Transformer.decoder tr) = [].
Proof.
  split; [reflexivity|].
  eexists. split; [reflexivity|]. split; reflexivity.
Qed.
